(** * go-js-xhr: the XMLHttpRequest binding and its http.RoundTripper

    A shallow embedding of package [xhr] (type [Request] with [NewRequest],
    [Abort], [Send], [SetRequestHeader], [ResponseHeaders]) and of
    [Transport] ([setCanceler], [RoundTrip], [CancelRequest]).

    The browser's XMLHttpRequest object and the Go scheduler are the
    environment: what they do is given as a list of [Action]s that are
    interleaved with the code of the package.  The embedding follows the
    revision in which [NewRequest] takes the method and the URL and the
    [error] listener sends [ErrFailure]; [Open] is from the revisions
    before it. *)

From Stdlib Require Import ZArith Ascii String List Lia Strings.Byte.
From stdpp Require Import gmap strings list fin_maps pretty.

(** ** Go values *)

(** The [error] values that travel through the package.  A nil [error] is
    [None] of [option error]. *)
Inductive error : Type :=
| ErrAborted                (* errors.New("request aborted") *)
| ErrTimeout                (* errors.New("request timed out") *)
| ErrFailure                (* errors.New("send failed") *)
| ErrHostHeader             (* errors.New("cannot set Host header with XHR") *)
| io_EOF                    (* io.EOF *)
| ErrForeign (msg : string) (* an error made outside the package *).

#[global] Instance error_eq_dec : EqDecision error.
Proof. solve_decision. Defined.

(** A function of the package either returns or panics. *)
Inductive result (A : Type) : Type :=
| Ok (a : A)
| Panic (msg : string).
Arguments Ok {A} a.
Arguments Panic {A} msg.

Definition bytes : Type := list byte.

(** ** The XMLHttpRequest object *)

(** Method calls made on the wrapped JavaScript object, [r.Call(...)]. *)
Inductive JsCall : Type :=
| js_open (method url : string) (async : bool)
| js_open_as (method url : string) (async : bool) (user password : string)
| js_setRequestHeader (header value : string)
| js_addEventListener (typ : string) (useCapture : bool)
| js_send (data : option bytes)
| js_abort.

(** The properties of the object that the browser writes and the package
    reads: [status], [statusText], [response] and the string returned by
    [getAllResponseHeaders]. *)
Record JsProps : Type := mkJsProps {
  p_status : Z;
  p_statusText : string;
  p_response : option bytes;
  p_allResponseHeaders : string
}.

(** The possible values of Request.ResponseType. *)
Definition ArrayBuffer : string := "arraybuffer".

(** [type Request struct]: the JavaScript object (its properties, the calls
    made on it so far and the listeners registered on it, each with the
    value its goroutine sends) and the field [ch chan error]: [None] is
    the nil channel, [Some buf] a channel made with capacity 1 that
    holds [buf]. *)
Record Request : Type := mkRequest {
  props : JsProps;
  ResponseType : string;
  calls : list JsCall;
  listeners : list (string * option error);
  ch : option (list (option error))
}.

Definition Status (r : Request) : Z := p_status (props r).
Definition StatusText (r : Request) : string := p_statusText (props r).
Definition Response (r : Request) : option bytes := p_response (props r).

Definition set_props (p : JsProps) (r : Request) : Request :=
  mkRequest p (ResponseType r) (calls r) (listeners r) (ch r).
Definition set_ResponseType (s : string) (r : Request) : Request :=
  mkRequest (props r) s (calls r) (listeners r) (ch r).
Definition set_ch (c : option (list (option error))) (r : Request) : Request :=
  mkRequest (props r) (ResponseType r) (calls r) (listeners r) c.

(** [r.Call(...)]: the call is appended to the log of the object. *)
Definition Call (c : JsCall) (r : Request) : Request :=
  mkRequest (props r) (ResponseType r) (calls r ++ [c]) (listeners r) (ch r).

(** [r.AddEventListener(typ, useCapture, listener)] where the listener is
    a function that starts a goroutine, [go func() { r.ch <- v }()]. *)
Definition AddEventListener (typ : string) (useCapture : bool)
    (v : option error) (r : Request) : Request :=
  let r := Call (js_addEventListener typ useCapture) r in
  mkRequest (props r) (ResponseType r) (calls r) (listeners r ++ [(typ, v)]) (ch r).

(** A property state of a new object: nothing received yet. *)
Definition fresh_props : JsProps := mkJsProps 0 "" None "".

(** [func NewRequest(method, url string) *Request] *)
Definition NewRequest (method url : string) : Request :=
  Call (js_open method url true) (mkRequest fresh_props "" [] [] None).

(** [func (r *Request) ResponseHeaders() string] *)
Definition ResponseHeaders (r : Request) : string :=
  p_allResponseHeaders (props r).

(** [func (r *Request) SetRequestHeader(header, value string)] *)
Definition SetRequestHeader (header value : string) (r : Request) : Request :=
  Call (js_setRequestHeader header value) r.

(** ** The completion channel *)

(** [make(chan error, 1)] *)
Definition chan_cap : nat := 1.

(** A send that does not wait: [Some] of the new buffer when the channel
    takes the value, [None] when the send would block.  A value handed to
    a receiver that is already waiting is kept in the buffer until the
    receive is scheduled ([Wake]); what the receiver gets is the same. *)
Definition try_send (v : option error) (buf : list (option error))
    : option (list (option error)) :=
  if (length buf <? chan_cap)%nat then Some (buf ++ [v]) else None.

(** [func (r *Request) Abort()]:
    [if r.ch == nil { return }; r.Call("abort");
     select { case r.ch <- ErrAborted: default: }] *)
Definition Abort (r : Request) : Request :=
  match ch r with
  | None => r
  | Some buf =>
      let r := Call js_abort r in
      match try_send (Some ErrAborted) buf with
      | Some buf' => set_ch (Some buf') r
      | None => r
      end
  end.

(** [func (r *Request) Open(method, url, user, password string)] of the
    revisions in which [NewRequest] does not open the request itself:
    [if r.ch != nil { panic(...) }; r.Call("open", method, url, true, user, password)]. *)
Definition Open (method url user password : string) (r : Request)
    : result Request :=
  match ch r with
  | Some _ => Panic "must not use a Request for multiple requests"
  | None => Ok (Call (js_open_as method url true user password) r)
  end.

(** The part of [func (r *Request) Send(data interface{}) error] before the
    receive [val := <-r.ch]: the check of [r.ch], [make], the three
    listeners, and the dispatch [r.Call("send", data)].  Nothing in it
    waits, so it is one step of the caller. *)
Definition Send_dispatch (data : option bytes) (r : Request) : result Request :=
  match ch r with
  | Some _ => Panic "must not use a Request for multiple requests"
  | None =>
      let r := set_ch (Some []) r in
      let r := AddEventListener "load" false None r in
      let r := AddEventListener "error" false (Some ErrFailure) r in
      let r := AddEventListener "timeout" false (Some ErrTimeout) r in
      Ok (Call (js_send data) r)
  end.

(** ** Interleaving *)

(** The goroutine that called [Send]. *)
Inductive Caller : Type :=
| NotCalled
| Waiting                        (* blocked in [val := <-r.ch] *)
| Returned (val : option error)  (* [return val] *).

(** A handle at run time: the [Request], the goroutines started by its
    listeners that have not yet completed [r.ch <- v], and the caller of
    [Send]. *)
Record World : Type := mkWorld {
  req : Request;
  spawned : list (option error);
  caller : Caller
}.

Definition new_world (r : Request) : World := mkWorld r [] NotCalled.

(** What can happen to a handle. *)
Inductive Action : Type :=
| CallSend (data : option bytes) (* a goroutine calls [r.Send(data)] *)
| Wake                  (* the blocked receive of [Send] is scheduled *)
| Fire (typ : string)   (* the browser dispatches an event of this type *)
| Run (i : nat)         (* the i-th started goroutine attempts its send *)
| CallAbort             (* a goroutine calls [r.Abort()] *)
| Browser (p : JsProps) (* the browser rewrites the properties *).

(** The values sent by the goroutines that the listeners for [typ] start. *)
Definition fired (typ : string) (r : Request) : list (option error) :=
  map snd (List.filter (fun l => String.eqb (fst l) typ) (listeners r)).

Definition step (a : Action) (w : World) : result World :=
  match a with
  | CallSend data =>
      match Send_dispatch data (req w) with
      | Panic msg => Panic msg
      | Ok r => Ok (mkWorld r (spawned w) Waiting)
      end
  | Wake =>
      match caller w, ch (req w) with
      | Waiting, Some (v :: buf) =>
          Ok (mkWorld (set_ch (Some buf) (req w)) (spawned w) (Returned v))
      | _, _ => Ok w
      end
  | Fire typ =>
      Ok (mkWorld (req w) (spawned w ++ fired typ (req w)) (caller w))
  | Run i =>
      match spawned w !! i, ch (req w) with
      | Some v, Some buf =>
          match try_send v buf with
          | Some buf' =>
              Ok (mkWorld (set_ch (Some buf') (req w)) (delete i (spawned w)) (caller w))
          | None => Ok w
          end
      | _, _ => Ok w
      end
  | CallAbort => Ok (mkWorld (Abort (req w)) (spawned w) (caller w))
  | Browser p => Ok (mkWorld (set_props p (req w)) (spawned w) (caller w))
  end.

Fixpoint run (acts : list Action) (w : World) : result World :=
  match acts with
  | [] => Ok w
  | a :: acts =>
      match step a w with
      | Panic msg => Panic msg
      | Ok w' => run acts w'
      end
  end.

(** What the caller of [Send] sees. *)
Inductive SendResult : Type :=
| SendPanics (msg : string)
| SendBlocked (r : Request)
| SendReturns (val : option error) (r : Request).

(** [func (r *Request) Send(data interface{}) error], called on [r] while
    [sched] happens around the blocked caller; the receive is scheduled
    once more after [sched]. *)
Definition Send (data : option bytes) (sched : list Action) (r : Request)
    : SendResult :=
  match run (CallSend data :: sched ++ [Wake]) (new_world r) with
  | Panic msg => SendPanics msg
  | Ok w =>
      match caller w with
      | Returned val => SendReturns val (req w)
      | _ => SendBlocked (req w)
      end
  end.

(** ** net/http values *)

(** Addresses: a [*http.Request] and a [*Request] are compared and used as
    map keys by address. *)
Definition ReqPtr : Type := positive.
Definition XhrPtr : Type := positive.

(** [map[string][]string], the type of [http.Header] and of
    [textproto.MIMEHeader]. *)
Abbreviation Header_map := (gmap string (list string)).

(** An [io.ReadCloser] as [ioutil.ReadAll] sees it: the bytes it yields and
    the error it ends with, if any. *)
Record ReadCloser : Type := mkReadCloser {
  rc_data : bytes;
  rc_err : option error
}.

(** The fields of [http.Request] that [RoundTrip] reads; [addr] is the
    address of the struct and [URL] is [req.URL.String()]. *)
Record HttpRequest : Type := mkHttpRequest {
  addr : ReqPtr;
  Method : string;
  URL : string;
  Host : string;
  Header : Header_map;
  Body : option ReadCloser
}.

(** [http.Response] as [RoundTrip] builds it; [r_Body] holds the bytes the
    body reader is over, [r_Request] is [None] for a nil pointer. *)
Record HttpResponse : Type := mkHttpResponse {
  r_Status : string;
  r_StatusCode : Z;
  r_Proto : string;
  r_ProtoMajor : Z;
  r_ProtoMinor : Z;
  r_Header : Header_map;
  r_Body : bytes;
  r_ContentLength : Z;
  r_Request : option ReqPtr
}.

(** The two functions of the Go standard library that [RoundTrip] calls on
    the response headers.  They are not part of the package; [RoundTrip]
    is stated over any pair of them.
    - [ReadMIMEHeader s] is
      [textproto.NewReader(bufio.NewReader(strings.NewReader(s))).ReadMIMEHeader()];
    - [ParseHTTPVersion] is [http.ParseHTTPVersion]. *)
Record Lib : Type := mkLib {
  ReadMIMEHeader : string -> Header_map * option error;
  ParseHTTPVersion : string -> Z * Z * bool
}.

(** ** Transport *)

(** [type Transport struct { mu sync.Mutex; inflight map[*http.Request]*Request }];
    [None] is the nil map.  The functions below run with [mu] held and
    are therefore single steps. *)
Record Transport : Type := mkTransport {
  inflight : option (gmap ReqPtr XhrPtr)
}.

(** [t.inflight[req]]; reading a nil map finds nothing. *)
Definition inflight_get (t : Transport) (p : ReqPtr) : option XhrPtr :=
  match inflight t with
  | None => None
  | Some m => m !! p
  end.

(** [func (t *Transport) setCanceler(req *http.Request, x *Request)] *)
Definition setCanceler (p : ReqPtr) (x : option XhrPtr) (t : Transport)
    : Transport :=
  let m := match inflight t with
           | None => ∅
           | Some m => m
           end in
  match x with
  | None => mkTransport (Some (delete p m))
  | Some x => mkTransport (Some (<[p := x]> m))
  end.

(** [func (t *Transport) CancelRequest(req *http.Request)], as it acts on
    the handle [r] that lives at address [xp]. *)
Definition CancelRequest (t : Transport) (p : ReqPtr) (xp : XhrPtr)
    (r : Request) : Request :=
  match inflight_get t p with
  | Some x => if decide (x = xp) then Abort r else r
  | None => r
  end.

(** What happens around a [RoundTrip] that is blocked in [Send].  Its
    handle is reachable from outside only through the registry, so the
    rest of the program acts on it by [CancelRequest] alone; the browser
    dispatches events and rewrites properties, the scheduler runs the
    goroutines of the listeners. *)
Inductive TAction : Type :=
| Dispatch (typ : string)
| Goroutine (i : nat)
| Props (p : JsProps)
| Cancel (p : ReqPtr).

(** With the registry [t] unchanged while [Send] blocks, a [CancelRequest]
    is an [Abort] of the handle at [xp] or nothing. *)
Definition resolve (t : Transport) (xp : XhrPtr) (sched : list TAction)
    : list Action :=
  flat_map (fun a =>
    match a with
    | Dispatch typ => [Fire typ]
    | Goroutine i => [Run i]
    | Props p => [Browser p]
    | Cancel p =>
        match inflight_get t p with
        | Some x => if decide (x = xp) then [CallAbort] else []
        | None => []
        end
    end) sched.

(** The environment of one [RoundTrip]: the address at which [NewRequest]
    allocates, the order in which [range req.Header] visits the map, and
    what happens while [Send] blocks. *)
Record Env : Type := mkEnv {
  new_xhr : XhrPtr;
  range_Header : list (string * list string);
  during_Send : list TAction
}.

(** Go leaves the order of [range] over a map open: any order of the
    entries of the map. *)
Definition range_of (env : Env) (h : Header_map) : Prop :=
  range_Header env ≡ₚ map_to_list h.

(** What [RoundTrip] does besides calls on its handle, in order. *)
Inductive Effect : Type :=
| EfNewRequest (xp : XhrPtr)
| EfReadAll
| EfClose
| EfSetCanceler (p : ReqPtr) (x : option XhrPtr)
| EfSend (data : option bytes).

Inductive Ret : Type :=
| Returns (resp : option HttpResponse) (err : option error)
| Blocks
| Panics (msg : string).

Record Outcome : Type := mkOutcome {
  o_transport : Transport;
  o_xhr : option Request;
  o_effects : list Effect;
  o_ret : Ret
}.

(** [for k, v := range req.Header { for _, vv := range v { x.SetRequestHeader(k, vv) } }] *)
Fixpoint set_values (k : string) (v : list string) (x : Request) : Request :=
  match v with
  | [] => x
  | vv :: v => set_values k v (SetRequestHeader k vv x)
  end.

Fixpoint set_headers (h : list (string * list string)) (x : Request) : Request :=
  match h with
  | [] => x
  | (k, v) :: h => set_headers h (set_values k v x)
  end.

(** [fmt.Sprintf("%d %s", x.Status, x.StatusText)] *)
Definition status_line (code : Z) (text : string) : string :=
  (pretty code ++ " " ++ text)%string.

(** [if len(headers["Version"]) > 0 { proto = headers["Version"][0];
    major, minor, _ = http.ParseHTTPVersion(proto) }], with [proto],
    [major] and [minor] at their zero values otherwise. *)
Definition version_of (lib : Lib) (headers : Header_map) : string * Z * Z :=
  match headers !! "Version" with
  | Some (v :: _) =>
      let '(major, minor, _) := ParseHTTPVersion lib v in (v, major, minor)
  | _ => (""%string, 0%Z, 0%Z)
  end.

(** [err != nil && err != io.EOF] *)
Definition fatal (err : option error) : bool :=
  match err with
  | Some e => if decide (e = io_EOF) then false else true
  | None => false
  end.

(** The lines after [x.Response] was found present: parse the headers,
    take the version, build the response. *)
Definition build_response (lib : Lib) (rq : HttpRequest) (x : Request)
    (payload : bytes) : Ret :=
  let '(headers, err) := ReadMIMEHeader lib (ResponseHeaders x) in
  if fatal err then Returns None err
  else
    let '(proto, major, minor) := version_of lib headers in
    Returns (Some (mkHttpResponse (status_line (Status x) (StatusText x))
                     (Status x) proto major minor headers payload
                     (Z.of_nat (length payload)) (Some (addr rq)))) None.

(** [ioutil.ReadAll(req.Body)] when [req.Body != nil], with the deferred
    [req.Body.Close()]: the data to send ([var data []byte] stays nil
    without a body), the error, and the effects on the body before and at
    the return. *)
Definition body_data (b : option ReadCloser) : option bytes :=
  match b with
  | None => None
  | Some rc => Some (rc_data rc)
  end.

Definition body_err (b : option ReadCloser) : option error :=
  match b with
  | None => None
  | Some rc => rc_err rc
  end.

Definition reading (b : option ReadCloser) : list Effect :=
  match b with
  | None => []
  | Some _ => [EfReadAll]
  end.

Definition closing (b : option ReadCloser) : list Effect :=
  match b with
  | None => []
  | Some _ => [EfClose]
  end.

(** The handle of a [RoundTrip] when it is ready to be sent:
    [x := NewRequest(req.Method, req.URL.String())],
    [x.ResponseType = ArrayBuffer], and the loop over [req.Header]. *)
Definition prepare (env : Env) (rq : HttpRequest) : Request :=
  let x := NewRequest (Method rq) (URL rq) in
  let x := set_ResponseType ArrayBuffer x in
  set_headers (range_Header env) x.

(** [t.setCanceler(req, x)] before the send. *)
Definition registered (env : Env) (t : Transport) (rq : HttpRequest)
    : Transport :=
  setCanceler (addr rq) (Some (new_xhr env)) t.

(** [err = x.Send(data)], with the registry as [setCanceler] left it. *)
Definition blocking_Send (env : Env) (t : Transport) (rq : HttpRequest)
    : SendResult :=
  Send (body_data (Body rq))
       (resolve (registered env t rq) (new_xhr env) (during_Send env))
       (prepare env rq).

(** [func (t *Transport) RoundTrip(req *http.Request)], which returns a
    response pointer and an error. *)
Definition RoundTrip (lib : Lib) (env : Env) (t : Transport) (rq : HttpRequest)
    : Outcome :=
  if negb (String.eqb (Host rq) "") then
    mkOutcome t None [] (Returns None (Some ErrHostHeader))
  else
    let xp := new_xhr env in
    let x := prepare env rq in
    let data := body_data (Body rq) in
    match body_err (Body rq) with
    | Some e =>
        mkOutcome t (Some x)
          (EfNewRequest xp :: reading (Body rq) ++ closing (Body rq))
          (Returns None (Some e))
    | None =>
        let t1 := registered env t rq in
        let before := EfNewRequest xp :: reading (Body rq)
                        ++ [EfSetCanceler (addr rq) (Some xp); EfSend data] in
        match blocking_Send env t rq with
        | SendPanics msg => mkOutcome t1 (Some x) before (Panics msg)
        | SendBlocked x => mkOutcome t1 (Some x) before Blocks
        | SendReturns err x =>
            let t2 := setCanceler (addr rq) None t1 in
            let effects :=
              before ++ EfSetCanceler (addr rq) None :: closing (Body rq) in
            match err with
            | Some e => mkOutcome t2 (Some x) effects (Returns None (Some e))
            | None =>
                match Response x with
                | None =>
                    mkOutcome t2 (Some x) effects (Returns None (Some ErrAborted))
                | Some payload =>
                    mkOutcome t2 (Some x) effects (build_response lib rq x payload)
                end
            end
        end
    end.

(** The calls of [setRequestHeader] among the calls made on a handle. *)
Definition header_calls (x : Request) : list (string * string) :=
  flat_map (fun c =>
    match c with
    | js_setRequestHeader header value => [(header, value)]
    | _ => []
    end) (calls x).

(** The calls that the header loop makes for one entry of the map. *)
Definition forwarded (kv : string * list string) : list (string * string) :=
  map (pair (fst kv)) (snd kv).

(** A call of [setRequestHeader] under the name [k]. *)
Definition named (k : string) (c : string * string) : bool :=
  String.eqb (fst c) k.

(** The registration and the dispatch among the effects. *)
Definition registry_trace (out : Outcome) : list Effect :=
  List.filter (fun e =>
    match e with
    | EfSetCanceler _ _ | EfSend _ => true
    | _ => false
    end) (o_effects out).

(** ** The Go standard library on header blocks

    A model of the two library functions, used to run [RoundTrip] on
    concrete header strings.  [ParseHTTPVersion] follows net/http:
    ["HTTP/1.1"] and ["HTTP/1.0"] are answered at once, any other string
    must be ["HTTP/"], one digit, a dot, one digit; every failure returns
    [(0, 0, false)].  [ReadMIMEHeader] follows net/textproto on blocks
    whose lines are not continued: lines end in LF or CRLF, a blank line
    ends the block with a nil error, the end of the input ends it with
    [io.EOF], a line without a colon is an error, keys are put in
    canonical form, values lose the blanks around them and are collected
    per key in order. *)
Module GoStd.

Definition digit (c : ascii) : option Z :=
  let n := Z.of_nat (nat_of_ascii c) in
  if ((48 <=? n) && (n <=? 57))%Z then Some (n - 48)%Z else None.

Definition ParseHTTPVersion (vers : string) : Z * Z * bool :=
  if String.eqb vers "HTTP/1.1" then (1, 1, true)%Z
  else if String.eqb vers "HTTP/1.0" then (1, 0, true)%Z
  else if negb (String.prefix "HTTP/" vers) then (0, 0, false)%Z
  else if negb (String.length vers =? 8)%nat then (0, 0, false)%Z
  else
    match String.get 5 vers, String.get 6 vers, String.get 7 vers with
    | Some a, Some dot, Some b =>
        if Ascii.eqb dot "."%char then
          match digit a, digit b with
          | Some major, Some minor => (major, minor, true)
          | _, _ => (0, 0, false)%Z
          end
        else (0, 0, false)%Z
    | _, _, _ => (0, 0, false)%Z
    end.

Definition is_blank (c : ascii) : bool :=
  Ascii.eqb c " "%char || Ascii.eqb c "009"%char.

Fixpoint trim_left (s : string) : string :=
  match s with
  | String c s' => if is_blank c then trim_left s' else s
  | EmptyString => EmptyString
  end.

Fixpoint trim_right (s : string) : string :=
  match s with
  | String c s' =>
      match trim_right s' with
      | EmptyString => if is_blank c then EmptyString else String c EmptyString
      | t => String c t
      end
  | EmptyString => EmptyString
  end.

(** The lines of the input, without their LF; the last element is what
    follows the last LF. *)
Fixpoint split_lines (s : string) : list string :=
  match s with
  | EmptyString => [EmptyString]
  | String c s' =>
      match split_lines s' with
      | l :: ls =>
          if Ascii.eqb c "010"%char then EmptyString :: l :: ls
          else String c l :: ls
      | [] => [String c EmptyString]
      end
  end.

Fixpoint drop_cr (s : string) : string :=
  match s with
  | String c EmptyString => if Ascii.eqb c "013"%char then EmptyString else s
  | String c s' => String c (drop_cr s')
  | EmptyString => EmptyString
  end.

(** [bytes.Cut(kv, ":")] *)
Fixpoint cut_colon (s : string) : option (string * string) :=
  match s with
  | EmptyString => None
  | String c s' =>
      if Ascii.eqb c ":"%char then Some (EmptyString, s')
      else match cut_colon s' with
           | Some (k, v) => Some (String c k, v)
           | None => None
           end
  end.

Definition upper (c : ascii) : ascii :=
  let n := nat_of_ascii c in
  if ((97 <=? n) && (n <=? 122))%nat then ascii_of_nat (n - 32) else c.
Definition lower (c : ascii) : ascii :=
  let n := nat_of_ascii c in
  if ((65 <=? n) && (n <=? 90))%nat then ascii_of_nat (n + 32) else c.

(** [textproto.CanonicalMIMEHeaderKey] on keys of letters, digits and
    hyphens: a capital at the start and after each hyphen. *)
Fixpoint canonical (up : bool) (s : string) : string :=
  match s with
  | EmptyString => EmptyString
  | String c s' =>
      String (if up then upper c else lower c)
             (canonical (Ascii.eqb c "-"%char) s')
  end.

Fixpoint read_lines (ls : list string) (m : Header_map)
    : Header_map * option error :=
  match ls with
  | [] => (m, Some io_EOF)
  | [EmptyString] => (m, Some io_EOF)
  | l :: ls =>
      let kv := trim_right (drop_cr l) in
      match kv with
      | EmptyString => (m, None)
      | _ =>
          match cut_colon kv with
          | None => (m, Some (ErrForeign "malformed MIME header line"))
          | Some (k, v) =>
              let key := canonical true k in
              read_lines ls (<[key := default [] (m !! key) ++ [trim_left v]]> m)
          end
      end
  end.

Definition ReadMIMEHeader (s : string) : Header_map * option error :=
  read_lines (split_lines s) ∅.

Definition lib : Lib := mkLib ReadMIMEHeader ParseHTTPVersion.

End GoStd.

Definition CRLF : string := String "013"%char (String "010"%char EmptyString).

(** ** A worked exchange

    [GET http://example.test/ok] with two headers, one of them with two
    values, and no body; the browser answers 200 with the body [hello]
    and a header block that carries the version. *)
Definition hello : bytes := ["h"; "e"; "l"; "l"; "o"]%byte.

Definition ex_headers : string :=
  ("Version: HTTP/1.1" ++ CRLF ++ "Content-Type: application/json" ++ CRLF
   ++ CRLF)%string.

Definition ex_request : HttpRequest :=
  mkHttpRequest 1%positive "GET" "http://example.test/ok" ""
    (<["Accept" := ["text/plain"; "application/json"]%string]>
       (<["X-Trace" := ["7"%string]]> ∅))
    None.

Definition ex_override : HttpRequest :=
  mkHttpRequest 2%positive "GET" "http://example.test/ok" "other.test" ∅
    (Some (mkReadCloser hello None)).

Definition ex_loaded : JsProps := mkJsProps 200 "OK" (Some hello) ex_headers.

Definition ex_cleared : JsProps := mkJsProps 0 "" None "".

Definition ex_env (sched : list TAction) : Env :=
  mkEnv 5%positive (map_to_list (Header ex_request)) sched.

Definition ex_transport : Transport := mkTransport None.

(** The browser loads the answer and the goroutine of the listener runs. *)
Definition ex_success : list TAction :=
  [Props ex_loaded; Dispatch "load"; Goroutine 0].

(** As before, then the request is cancelled and the browser clears the
    response. *)
Definition ex_late_cancel : list TAction :=
  ex_success ++ [Cancel 1%positive; Props ex_cleared].

(** The request is cancelled before the browser answers. *)
Definition ex_cancel : list TAction := [Cancel 1%positive].

(** The browser gives up on the request. *)
Definition ex_timed_out : list TAction := [Dispatch "timeout"; Goroutine 0].

(** The handle with which [Send] returned, if it returned. *)
Definition returned_handle (s : SendResult) : Request :=
  match s with
  | SendReturns _ x => x
  | SendBlocked x => x
  | SendPanics _ => NewRequest "" ""
  end.

(** ** Predicates on handles and schedules *)

(** A handle on which [Send] has not been called: no channel yet, none of
    the listeners of [Send] yet. *)
Definition unsent (r : Request) : Prop :=
  ch r = None /\ listeners r = [].

Definition is_CallSend (a : Action) : bool :=
  match a with
  | CallSend _ => true
  | _ => false
  end.

(** A schedule in which nobody calls [Send]. *)
Definition no_Send (acts : list Action) : bool :=
  forallb (fun a => negb (is_CallSend a)) acts.

(** The listeners that [Send] registers. *)
Definition Send_listeners : list (string * option error) :=
  [("load", None); ("error", Some ErrFailure); ("timeout", Some ErrTimeout)].

(** A send is outstanding when its caller is blocked in the receive. *)
Definition outstanding (w : World) : bool :=
  match caller w with
  | Waiting => true
  | _ => false
  end.

(** Where an outcome can come from: an event of a type that [Send]
    listens to was dispatched in [acts]. *)
Definition natural (acts : list Action) (val : option error) : Prop :=
  exists typ, In (Fire typ) acts /\ In (typ, val) Send_listeners.

(** ... or [Abort] was called in [acts]. *)
Definition explained (acts : list Action) (val : option error) : Prop :=
  (val = Some ErrAborted /\ In CallAbort acts) \/ natural acts val.

(** The first value has reached the caller or waits for it in the
    channel. *)
Definition settled (val : option error) (w : World) : Prop :=
  (caller w = Waiting /\ ch (req w) = Some [val]) \/ caller w = Returned val.

(** A handle in flight after the actions [done]: the listeners are those
    of [Send], the channel exists and holds at most one value, and every
    value under way has its origin in [done]. *)
Record in_flight (done : list Action) (w : World) : Prop := mk_in_flight {
  inf_listeners : listeners (req w) = Send_listeners;
  inf_ch : exists buf, ch (req w) = Some buf /\ (length buf <= chan_cap)%nat
                       /\ Forall (explained done) buf;
  inf_spawned : Forall (explained done) (spawned w);
  inf_caller : match caller w with
               | NotCalled => False
               | Waiting => True
               | Returned val => explained done val
               end
}.

(** The caller has its value or can take one. *)
Definition served (w : World) : Prop :=
  match caller w with
  | NotCalled => False
  | Waiting => exists val buf, ch (req w) = Some (val :: buf)
  | Returned _ => True
  end.

Definition panic_reuse : string :=
  "must not use a Request for multiple requests".

(** ** The helper [Send] of the package and further predicates *)

(** [js.Global.Get("Uint8Array").New(v).Interface().([]byte)]: the bytes
    of the array buffer [v]; the typed array made from null is empty. *)
Definition Uint8Array (v : option bytes) : bytes := default [] v.

(** What the caller of the package function [Send] sees: the two results
    (a nil slice is [None]), or no return, or a panic. *)
Inductive Fetched : Type :=
| Fetch (data : option bytes) (err : option error)
| FetchBlocked
| FetchPanics (msg : string).

Module xhr.

(** [func Send(method, url string, data []byte) ([]byte, error)]:
    [xhr := NewRequest(method, url)], [xhr.ResponseType = ArrayBuffer],
    [err := xhr.Send(data)], then [nil, err] or the bytes of
    [xhr.Response]. *)
Definition Send (method url : string) (data : option bytes)
    (sched : list Action) : Fetched :=
  let x := NewRequest method url in
  let x := set_ResponseType ArrayBuffer x in
  match Send data sched x with
  | SendPanics msg => FetchPanics msg
  | SendBlocked _ => FetchBlocked
  | SendReturns (Some e) _ => Fetch None (Some e)
  | SendReturns None x => Fetch (Some (Uint8Array (Response x))) None
  end.

End xhr.

Definition is_CallAbort (a : Action) : bool :=
  match a with
  | CallAbort => true
  | _ => false
  end.

(** How often [Abort] is called in a schedule. *)
Definition aborts (acts : list Action) : nat :=
  length (List.filter is_CallAbort acts).

(** The event types that [Send] listens to. *)
Definition listened (typ : string) : bool :=
  String.eqb typ "load" || String.eqb typ "error" || String.eqb typ "timeout".

(** A schedule without [Send], without [Abort] and without an event that
    [Send] listens to. *)
Definition quiet (acts : list Action) : bool :=
  forallb (fun a =>
    match a with
    | CallSend _ | CallAbort => false
    | Fire typ => negb (listened typ)
    | _ => true
    end) acts.

(** The calls that [Send] makes on the object, in order. *)
Definition Send_calls (data : option bytes) : list JsCall :=
  [js_addEventListener "load" false; js_addEventListener "error" false;
   js_addEventListener "timeout" false; js_send data].

(** The [setRequestHeader] call for a name and a value. *)
Definition header_call (c : string * string) : JsCall :=
  js_setRequestHeader (fst c) (snd c).

(** * Properties *)

(** ** The handle *)

Lemma Send_dispatch_unsent (data : option bytes) (r : Request) :
  ch r = None ->
  exists r', Send_dispatch data r = Ok r'
    /\ ch r' = Some []
    /\ listeners r' = listeners r ++ Send_listeners
    /\ props r' = props r
    /\ calls r' = calls r ++ [js_addEventListener "load" false;
                               js_addEventListener "error" false;
                               js_addEventListener "timeout" false;
                               js_send data].
Proof.
  intros Hch. unfold Send_dispatch. rewrite Hch. eexists. split; [reflexivity|].
  cbn. repeat split; rewrite <- ?app_assoc; reflexivity.
Qed.

Lemma Send_dispatch_sent (data : option bytes) (r : Request) :
  ch r <> None -> Send_dispatch data r = Panic panic_reuse.
Proof.
  intros Hch. unfold Send_dispatch. destruct (ch r); [reflexivity | congruence].
Qed.

Lemma Abort_ch (r : Request) : ch r <> None -> ch (Abort r) <> None.
Proof.
  unfold Abort. destruct (ch r) as [buf|] eqn:E; [|congruence].
  intros _. destruct (try_send _ buf); cbn; congruence.
Qed.

(** Once made, the channel stays: no step sets [r.ch] back to nil. *)
Lemma step_keeps_ch (a : Action) (w w' : World) :
  ch (req w) <> None -> step a w = Ok w' -> ch (req w') <> None.
Proof.
  intros Hch Hs. destruct a; cbn in Hs.
  - rewrite Send_dispatch_sent in Hs by assumption. discriminate.
  - destruct (caller w), (ch (req w)) as [[|v buf]|] eqn:E;
      inversion Hs; subst; cbn; congruence.
  - inversion Hs; subst; assumption.
  - destruct (spawned w !! i) as [v|], (ch (req w)) as [buf|] eqn:E;
      try (inversion Hs; subst; congruence).
    destruct (try_send v buf); inversion Hs; subst; cbn; congruence.
  - inversion Hs; subst; cbn. apply Abort_ch; assumption.
  - inversion Hs; subst; assumption.
Qed.

Lemma run_keeps_ch (acts : list Action) (w w' : World) :
  ch (req w) <> None -> run acts w = Ok w' -> ch (req w') <> None.
Proof.
  revert w. induction acts as [|a acts IH]; intros w Hch Hr; cbn in Hr.
  - inversion Hr; subst; assumption.
  - destruct (step a w) as [w1|] eqn:Hs; [|discriminate].
    eapply IH; [|eassumption]. eapply step_keeps_ch; eassumption.
Qed.

Lemma run_app (a1 a2 : list Action) (w : World) :
  run (a1 ++ a2) w =
  match run a1 w with
  | Ok w1 => run a2 w1
  | Panic msg => Panic msg
  end.
Proof.
  revert w. induction a1 as [|a a1 IH]; intros w; cbn; [reflexivity|].
  destruct (step a w); [apply IH | reflexivity].
Qed.

(** After a [Send] was dispatched on a handle, the channel of the handle
    is there, whatever the caller of [Send] got. *)
Lemma Send_leaves_ch (data : option bytes) (sched : list Action)
    (r r1 : Request) :
  (exists val, Send data sched r = SendReturns val r1)
    \/ Send data sched r = SendBlocked r1 ->
  ch r1 <> None.
Proof.
  unfold Send. cbn [run step new_world req].
  destruct (Send_dispatch data r) as [r0|] eqn:Hd.
  2:{ intros [[v H]|H]; discriminate. }
  assert (Hr0 : ch r0 <> None).
  { unfold Send_dispatch in Hd. destruct (ch r); [discriminate|].
    inversion Hd; subst; cbn; congruence. }
  destruct (run _ _) as [w|] eqn:Hrun.
  2:{ intros [[v H]|H]; discriminate. }
  apply run_keeps_ch in Hrun; [|exact Hr0].
  intros [[v H]|H]; destruct (caller w); inversion H; subst; assumption.
Qed.

(** C1. A second [Send] on a handle panics with the message of the
    package, whether the first [Send] has returned or is still blocked
    and whatever happens around the second call; the panic comes before
    anything is dispatched: [Send_dispatch] yields no handle state.  So
    does [Open] on such a handle. *)
Theorem Send_twice_panics (data1 data2 : option bytes)
    (sched1 sched2 : list Action) (r r1 : Request) :
  (exists val, Send data1 sched1 r = SendReturns val r1)
    \/ Send data1 sched1 r = SendBlocked r1 ->
  Send_dispatch data2 r1 = Panic panic_reuse
  /\ Send data2 sched2 r1 = SendPanics panic_reuse
  /\ (forall method url user password,
      Open method url user password r1 = Panic panic_reuse).
Proof.
  intros H. apply Send_leaves_ch in H.
  assert (Hd := Send_dispatch_sent data2 r1 H).
  split; [exact Hd|]. split.
  - unfold Send. cbn [run step new_world req]. rewrite Hd. reflexivity.
  - intros method url user password. unfold Open.
    destruct (ch r1); [reflexivity | congruence].
Qed.

Lemma Send_twice_panics_witness :
  let r := NewRequest "GET" "/endpoint" in
  let r1 := match Send None [Fire "load"; Run 0] r with
            | SendReturns _ r1 => r1
            | _ => r
            end in
  Send None [Fire "load"; Run 0] r = SendReturns None r1
  /\ Send_dispatch None r1 = Panic panic_reuse
  /\ Send None [Fire "load"; Run 0] r1 = SendPanics panic_reuse.
Proof.
  intros r r1. split; [reflexivity|].
  destruct (Send_twice_panics None None [Fire "load"; Run 0]
              [Fire "load"; Run 0] r r1) as (H1 & H2 & _).
  - left. exists None. reflexivity.
  - split; assumption.
Defined.

(** ** Schedules around a blocked [Send] *)

Lemma Abort_full (r : Request) (val : option error) (buf : list (option error)) :
  ch r = Some (val :: buf) -> Abort r = Call js_abort r.
Proof. intros H. unfold Abort. rewrite H. reflexivity. Qed.

Lemma Abort_nil (r : Request) : ch r = None -> Abort r = r.
Proof. intros H. unfold Abort. rewrite H. reflexivity. Qed.

(** Once a value is settled, nothing but a second [Send] unsettles it. *)
Lemma step_settled (val : option error) (a : Action) (w : World) :
  settled val w -> is_CallSend a = false ->
  exists w', step a w = Ok w' /\ settled val w'.
Proof.
  intros Hs Ha. destruct a; try discriminate; cbn.
  - destruct Hs as [[Hc Hb]|Hc]; rewrite Hc; [rewrite Hb|];
      eexists; (split; [reflexivity|]); [right; reflexivity | right; assumption].
  - eexists; split; [reflexivity|]. exact Hs.
  - destruct Hs as [[Hc Hb]|Hc].
    + rewrite Hb. destruct (spawned w !! i) as [v|];
        eexists; (split; [reflexivity|]); left; split; assumption.
    + destruct (spawned w !! i) as [v|], (ch (req w)) as [buf|];
        try (eexists; split; [reflexivity|]; right; assumption).
      destruct (try_send v buf);
        eexists; (split; [reflexivity|]); right; assumption.
  - eexists; split; [reflexivity|]. destruct Hs as [[Hc Hb]|Hc].
    + left; split; [assumption|]. cbn.
      rewrite (Abort_full _ _ _ Hb). exact Hb.
    + right; assumption.
  - eexists; split; [reflexivity|]. exact Hs.
Qed.

Lemma run_settled (val : option error) (acts : list Action) (w : World) :
  settled val w -> no_Send acts = true ->
  exists w', run acts w = Ok w' /\ settled val w'.
Proof.
  revert w. induction acts as [|a acts IH]; intros w Hs Hn; cbn.
  - eexists; split; [reflexivity | assumption].
  - cbn in Hn. apply andb_true_iff in Hn as [Ha Hn].
    apply negb_true_iff in Ha.
    destruct (step_settled val a w Hs Ha) as (w1 & -> & Hs1).
    apply IH; assumption.
Qed.

Lemma Wake_settled (val : option error) (w : World) :
  settled val w -> exists w', step Wake w = Ok w' /\ caller w' = Returned val.
Proof.
  intros [[Hc Hb]|Hc]; cbn; rewrite Hc; [rewrite Hb|];
    eexists; (split; [reflexivity|]); [reflexivity | assumption].
Qed.

Lemma fired_Send_listeners (typ : string) (r : Request) (val : option error) :
  listeners r = Send_listeners ->
  In val (fired typ r) <-> In (typ, val) Send_listeners.
Proof.
  intros H. unfold fired. rewrite H. unfold Send_listeners.
  cbn [List.filter fst].
  split.
  - intros Hin.
    destruct (String.eqb_spec "load" typ), (String.eqb_spec "error" typ),
      (String.eqb_spec "timeout" typ); subst; try discriminate;
      cbn in Hin; cbn; intuition (subst; auto).
  - intros Hin. cbn in Hin.
    destruct Hin as [Hin|[Hin|[Hin|[]]]]; inversion Hin; subst; cbn; auto.
Qed.

Lemma explained_more (done more : list Action) (val : option error) :
  explained done val -> explained (done ++ more) val.
Proof.
  intros [[-> Hin]|(typ & Hin & Hl)].
  - left. split; [reflexivity|]. apply in_or_app. left. exact Hin.
  - right. exists typ. split; [|exact Hl]. apply in_or_app. left. exact Hin.
Qed.

Lemma Forall_explained_more (done more : list Action)
    (vals : list (option error)) :
  Forall (explained done) vals -> Forall (explained (done ++ more)) vals.
Proof.
  intros H. eapply Forall_impl; [exact H|].
  intros val. apply explained_more.
Qed.

Lemma try_send_Some (v : option error) (buf buf' : list (option error)) :
  try_send v buf = Some buf' -> buf = [] /\ buf' = [v].
Proof.
  destruct buf as [|x buf]; cbn; [|discriminate].
  intros H. inversion H. split; reflexivity.
Qed.

Lemma in_flight_start (data : option bytes) (r r' : Request) :
  unsent r -> Send_dispatch data r = Ok r' ->
  in_flight [] (mkWorld r' [] Waiting).
Proof.
  intros [Hch Hl] Hd.
  destruct (Send_dispatch_unsent data r Hch) as (r0 & Hd0 & Hch0 & Hl0 & _).
  rewrite Hd in Hd0. inversion Hd0; subst r0.
  split; cbn.
  - rewrite Hl0, Hl. reflexivity.
  - exists []. split; [exact Hch0|]. split; [unfold chan_cap; cbn; lia | constructor].
  - constructor.
  - exact I.
Qed.

Lemma step_in_flight (done : list Action) (a : Action) (w : World) :
  in_flight done w -> is_CallSend a = false ->
  exists w', step a w = Ok w' /\ in_flight (done ++ [a]) w'.
Proof.
  intros [Hl (buf & Hch & Hlen & Hbuf) Hsp Hc] Ha.
  assert (Hc' : match caller w with
                | NotCalled => False
                | Waiting => True
                | Returned val => explained (done ++ [a]) val
                end).
  { destruct (caller w); auto using explained_more. }
  apply (Forall_explained_more done [a]) in Hsp.
  pose proof (Forall_explained_more done [a] _ Hbuf) as Hbuf'.
  destruct a; try discriminate; cbn.
  - (* Wake *)
    rewrite Hch. destruct (caller w) eqn:Ecal.
    + contradiction.
    + destruct buf as [|v buf]; eexists; (split; [reflexivity|]).
      * split; cbn; try assumption; [|rewrite Ecal; exact I].
        exists []. rewrite Hch. auto.
      * inversion Hbuf'; subst. split; cbn; try assumption.
        exists buf. split; [reflexivity|]. split; [unfold chan_cap in *; cbn in Hlen |- *; lia | assumption].
    + eexists; split; [reflexivity|]. split; cbn; try assumption.
      * exists buf. auto.
      * rewrite Ecal. exact Hc'.
  - (* Fire *)
    eexists; split; [reflexivity|]. split; cbn; try assumption.
    + exists buf. auto.
    + apply Forall_app. split; [assumption|].
      apply Forall_forall. intros val Hin.
      apply list_elem_of_In, (fired_Send_listeners typ (req w) val Hl) in Hin.
      right. exists typ. split; [|exact Hin].
      apply in_or_app. right. left. reflexivity.
  - (* Run *)
    rewrite Hch. destruct (spawned w !! i) as [v|] eqn:Ei.
    + destruct (try_send v buf) as [buf'|] eqn:Et.
      * apply try_send_Some in Et as [-> ->].
        eexists; split; [reflexivity|]. split; cbn; try assumption.
        -- exists [v]. split; [reflexivity|]. split; [unfold chan_cap; cbn; lia|].
           constructor; [|constructor].
           exact (Forall_lookup_1 _ _ _ _ Hsp Ei).
        -- apply Forall_delete. assumption.
      * eexists; split; [reflexivity|]. split; cbn; try assumption.
        exists buf. auto.
    + eexists; split; [reflexivity|]. split; cbn; try assumption.
      exists buf. auto.
  - (* CallAbort *)
    eexists; split; [reflexivity|].
    assert (Hab : explained (done ++ [CallAbort]) (Some ErrAborted)).
    { left. split; [reflexivity|]. apply in_or_app. right. left. reflexivity. }
    unfold Abort. rewrite Hch.
    destruct (try_send (Some ErrAborted) buf) as [buf'|] eqn:Et.
    + apply try_send_Some in Et as [-> ->].
      split; cbn; try assumption.
      exists [Some ErrAborted]. split; [reflexivity|]. split; [unfold chan_cap; cbn; lia|].
      constructor; [exact Hab | constructor].
    + split; cbn; try assumption. exists buf. auto.
  - (* Browser *)
    eexists; split; [reflexivity|]. split; cbn; try assumption.
    exists buf. auto.
Qed.

Lemma run_in_flight (acts done : list Action) (w : World) :
  in_flight done w -> no_Send acts = true ->
  exists w', run acts w = Ok w' /\ in_flight (done ++ acts) w'.
Proof.
  revert done w. induction acts as [|a acts IH]; intros done w Hi Hn; cbn.
  - rewrite app_nil_r. eexists; split; [reflexivity | assumption].
  - cbn in Hn. apply andb_true_iff in Hn as [Ha Hn].
    apply negb_true_iff in Ha.
    destruct (step_in_flight done a w Hi Ha) as (w1 & -> & Hi1).
    destruct (IH (done ++ [a]) w1 Hi1 Hn) as (w2 & Hr & Hi2).
    rewrite <- app_assoc in Hi2. exists w2. split; assumption.
Qed.

Lemma Abort_serves (done : list Action) (w : World) :
  in_flight done w ->
  served (mkWorld (Abort (req w)) (spawned w) (caller w)).
Proof.
  intros [_ (buf & Hch & _ & _) _ Hc]. unfold served; cbn.
  destruct (caller w); [contradiction | | exact I].
  unfold Abort. rewrite Hch. destruct buf as [|v buf]; cbn; eauto.
Qed.

Lemma step_served (a : Action) (w : World) :
  served w -> is_CallSend a = false ->
  exists w', step a w = Ok w' /\ served w'.
Proof.
  unfold served. intros Hs Ha. destruct a; try discriminate; cbn.
  - destruct (caller w) eqn:Ec; [contradiction | |].
    + destruct Hs as (val & buf & ->). eexists; split; [reflexivity|]. exact I.
    + eexists; split; [reflexivity|]. rewrite Ec. exact I.
  - eexists; split; [reflexivity|]. exact Hs.
  - destruct (caller w) eqn:Ec; [contradiction | |].
    + destruct Hs as (val & buf & E). rewrite E.
      destruct (spawned w !! i); cbn;
        eexists; (split; [reflexivity|]); rewrite Ec; eauto.
    + destruct (spawned w !! i) as [v|], (ch (req w)) as [buf|];
        try (eexists; split; [reflexivity|]; rewrite Ec; exact I).
      destruct (try_send v buf);
        eexists; (split; [reflexivity|]); cbn; rewrite ?Ec; exact I.
  - eexists; split; [reflexivity|]. cbn.
    destruct (caller w); [contradiction | | exact I].
    destruct Hs as (val & buf & E). rewrite (Abort_full _ _ _ E). cbn. eauto.
  - eexists; split; [reflexivity|]. exact Hs.
Qed.

Lemma run_served (acts : list Action) (w : World) :
  served w -> no_Send acts = true ->
  exists w', run acts w = Ok w' /\ served w'.
Proof.
  revert w. induction acts as [|a acts IH]; intros w Hs Hn; cbn.
  - eexists; split; [reflexivity | assumption].
  - cbn in Hn. apply andb_true_iff in Hn as [Ha Hn].
    apply negb_true_iff in Ha.
    destruct (step_served a w Hs Ha) as (w1 & -> & Hs1).
    apply IH; assumption.
Qed.

Lemma Wake_served (w : World) :
  served w ->
  exists w' val, step Wake w = Ok w' /\ caller w' = Returned val.
Proof.
  unfold served. intros Hs. cbn. destruct (caller w) eqn:Ec; [contradiction | |].
  - destruct Hs as (val & buf & ->). eexists _, val. split; reflexivity.
  - exists w, val. split; [reflexivity | assumption].
Qed.

(** A value the caller has got is its value for good. *)
Lemma step_Returned (a : Action) (w : World) (val : option error) :
  caller w = Returned val -> is_CallSend a = false ->
  exists w', step a w = Ok w' /\ caller w' = Returned val.
Proof.
  intros Hc Ha. destruct a; try discriminate; cbn.
  - rewrite Hc. eexists; split; [reflexivity | assumption].
  - eexists; split; [reflexivity | assumption].
  - destruct (spawned w !! i) as [v|], (ch (req w)) as [buf|];
      try (eexists; split; [reflexivity | assumption]).
    destruct (try_send v buf); eexists; (split; [reflexivity | assumption]).
  - eexists; split; [reflexivity | assumption].
  - eexists; split; [reflexivity | assumption].
Qed.

Lemma run_Returned (acts : list Action) (w : World) (val : option error) :
  caller w = Returned val -> no_Send acts = true ->
  exists w', run acts w = Ok w' /\ caller w' = Returned val.
Proof.
  revert w. induction acts as [|a acts IH]; intros w Hc Hn; cbn.
  - eexists; split; [reflexivity | assumption].
  - cbn in Hn. apply andb_true_iff in Hn as [Ha Hn].
    apply negb_true_iff in Ha.
    destruct (step_Returned a w val Hc Ha) as (w1 & -> & Hc1).
    apply IH; assumption.
Qed.

Lemma natural_drop (pre post : list Action) (val : option error) :
  natural (((pre ++ [CallAbort]) ++ post) ++ [Wake]) val ->
  natural (pre ++ post) val.
Proof.
  intros (typ & Hin & Hl). exists typ. split; [|exact Hl].
  repeat (apply in_app_or in Hin as [Hin|Hin]);
    try (apply in_or_app; auto; fail);
    destruct Hin as [Hin|[]]; discriminate.
Qed.

(** C2. [Abort] called while [Send] is in flight: under every schedule
    [pre], [Abort], [post] of events, goroutines and further aborts, the
    blocked caller gets a value (it cannot hang); the value is
    [ErrAborted] or the outcome of an event that was dispatched; whatever
    happens later, the caller keeps that one value; and an [Abort] that
    finds the channel full leaves the channel as it is (its send has a
    [default] branch, it neither waits nor panics). *)
Theorem Abort_during_Send_one_outcome (data : option bytes)
    (pre post : list Action) (r : Request) :
  unsent r -> no_Send pre = true -> no_Send post = true ->
  exists val r',
    Send data (pre ++ CallAbort :: post) r = SendReturns val r'
    /\ (val = Some ErrAborted \/ natural (pre ++ post) val)
    /\ (forall later, no_Send later = true ->
        exists w,
          run (CallSend data :: (pre ++ CallAbort :: post) ++ Wake :: later)
              (new_world r) = Ok w
          /\ caller w = Returned val)
    /\ (forall r0 v buf, ch r0 = Some (v :: buf) ->
        ch (Abort r0) = Some (v :: buf)).
Proof.
  intros Hu Hpre Hpost.
  destruct (Send_dispatch_unsent data r (proj1 Hu)) as (r0 & Hd & _).
  pose proof (in_flight_start data r r0 Hu Hd) as H0.
  destruct (run_in_flight pre [] _ H0 Hpre) as (w1 & Hr1 & H1). cbn in H1.
  pose proof (Abort_serves pre w1 H1) as Hs2.
  destruct (step_in_flight pre CallAbort w1 H1 eq_refl) as (w2 & Hst2 & H2).
  cbn in Hst2. inversion Hst2; subst w2; clear Hst2.
  destruct (run_in_flight post _ _ H2 Hpost) as (w3 & Hr3 & H3).
  destruct (run_served post _ Hs2 Hpost) as (w3' & Hr3' & Hs3).
  rewrite Hr3 in Hr3'. inversion Hr3'; subst w3'; clear Hr3'.
  destruct (Wake_served w3 Hs3) as (w4 & val & Hst4 & Hc4).
  destruct (step_in_flight _ Wake w3 H3 eq_refl) as (w4' & Hst4' & H4).
  rewrite Hst4 in Hst4'. inversion Hst4'; subst w4'; clear Hst4'.
  assert (Hrun : run (CallSend data :: (pre ++ CallAbort :: post) ++ [Wake])
                     (new_world r) = Ok w4).
  { assert (Hmid : run (pre ++ CallAbort :: post) (mkWorld r0 [] Waiting) = Ok w3).
    { rewrite run_app, Hr1. cbn [run step]. exact Hr3. }
    cbn [run step new_world req spawned]. rewrite Hd.
    rewrite run_app, Hmid. cbn [run]. rewrite Hst4. reflexivity. }
  exists val, (req w4). repeat split.
  - unfold Send. rewrite Hrun, Hc4. reflexivity.
  - pose proof (inf_caller _ _ H4) as He. rewrite Hc4 in He.
    destruct He as [[-> _]|Hn]; [left; reflexivity | right].
    apply natural_drop. exact Hn.
  - intros later Hl.
    destruct (run_Returned later w4 val Hc4 Hl) as (w5 & Hr5 & Hc5).
    exists w5. split; [|exact Hc5].
    replace (CallSend data :: (pre ++ CallAbort :: post) ++ Wake :: later)
      with ((CallSend data :: (pre ++ CallAbort :: post) ++ [Wake]) ++ later).
    + rewrite run_app, Hrun. exact Hr5.
    + cbn. rewrite <- app_assoc. reflexivity.
  - intros r0' v buf Hch. rewrite (Abort_full _ _ _ Hch). exact Hch.
Qed.

Lemma Abort_during_Send_one_outcome_witness :
  exists val r',
    Send None ([Fire "load"] ++ CallAbort :: [Run 0]) (NewRequest "GET" "/endpoint")
      = SendReturns val r'
    /\ (val = Some ErrAborted \/ natural ([Fire "load"] ++ [Run 0]) val)
    /\ (forall later, no_Send later = true ->
        exists w,
          run (CallSend None :: ([Fire "load"] ++ CallAbort :: [Run 0]) ++ Wake :: later)
              (new_world (NewRequest "GET" "/endpoint")) = Ok w
          /\ caller w = Returned val)
    /\ (forall r0 v buf, ch r0 = Some (v :: buf) ->
        ch (Abort r0) = Some (v :: buf)).
Proof.
  apply (Abort_during_Send_one_outcome None [Fire "load"] [Run 0]
           (NewRequest "GET" "/endpoint")).
  - split; reflexivity.
  - reflexivity.
  - reflexivity.
Defined.

(** An event whose listener sends [val], dispatched and delivered while
    the caller is blocked, decides the outcome, whatever the properties
    of the object are and whatever comes after. *)
Lemma event_decides (data : option bytes) (p : JsProps) (typ : string)
    (val : option error) (post : list Action) (r : Request) :
  unsent r -> no_Send post = true ->
  List.filter (fun l => String.eqb (fst l) typ) Send_listeners = [(typ, val)] ->
  exists r', Send data (Browser p :: Fire typ :: Run 0 :: post) r
             = SendReturns val r'.
Proof.
  intros Hu Hpost Hf.
  destruct (Send_dispatch_unsent data r (proj1 Hu)) as (r0 & Hd & Hch & Hl & _).
  rewrite (proj2 Hu) in Hl. cbn in Hl.
  set (w3 := mkWorld (set_ch (Some [val]) (set_props p r0)) [] Waiting).
  assert (H3 : run [Browser p; Fire typ; Run 0] (mkWorld r0 [] Waiting) = Ok w3).
  { cbn. unfold fired. cbn. rewrite Hl, Hf, Hch. reflexivity. }
  assert (Hs3 : settled val w3) by (left; split; reflexivity).
  destruct (run_settled val post w3 Hs3 Hpost) as (w4 & Hr4 & Hs4).
  destruct (Wake_settled val w4 Hs4) as (w5 & Hst5 & Hc5).
  assert (H0 : run [CallSend data] (new_world r) = Ok (mkWorld r0 [] Waiting)).
  { cbn. rewrite Hd. reflexivity. }
  exists (req w5). unfold Send.
  change (CallSend data :: (Browser p :: Fire typ :: Run 0 :: post) ++ [Wake])
    with ([CallSend data] ++ [Browser p; Fire typ; Run 0] ++ post ++ [Wake]).
  rewrite run_app, H0, run_app, H3, run_app, Hr4. cbn [run].
  rewrite Hst5, Hc5. reflexivity.
Qed.

Lemma load_keeps_status (data : option bytes) (p : JsProps) (r : Request) :
  unsent r ->
  exists r', Send data [Browser p; Fire "load"; Run 0] r = SendReturns None r'
             /\ props r' = p.
Proof.
  intros Hu.
  destruct (Send_dispatch_unsent data r (proj1 Hu)) as (r0 & Hd & Hch & Hl & _).
  rewrite (proj2 Hu) in Hl. cbn in Hl.
  unfold Send. cbn [run step new_world req spawned app]. rewrite Hd.
  cbn. unfold fired. cbn. rewrite Hl, Hch. cbn.
  eexists. split; reflexivity.
Qed.

(** ** [Abort] outside a [Send] *)

(** C8, as far as the code goes. [Abort] on a handle on which [Send] has
    never been called (its channel is nil) changes nothing: no call
    reaches the object, the handle is as before, and a [Send] that
    follows runs exactly as it would have run without the [Abort]. *)
Theorem Abort_before_Send_noop (r : Request) :
  unsent r ->
  Abort r = r
  /\ calls (Abort r) = calls r
  /\ (forall w, req w = r -> step CallAbort w = Ok w)
  /\ (forall data sched, Send data sched (Abort r) = Send data sched r)
  /\ (forall data p post, no_Send post = true ->
      exists r', Send data (Browser p :: Fire "load" :: Run 0 :: post) (Abort r)
                 = SendReturns None r').
Proof.
  intros Hu. pose proof (Abort_nil r (proj1 Hu)) as Ha. repeat split.
  - exact Ha.
  - rewrite Ha. reflexivity.
  - intros w Hw. cbn. rewrite Hw, Ha, <- Hw. destruct w; reflexivity.
  - intros data sched. rewrite Ha. reflexivity.
  - intros data p post Hpost. rewrite Ha. apply event_decides; auto.
Qed.

Lemma Abort_before_Send_noop_witness :
  let r := NewRequest "GET" "/endpoint" in
  Abort r = r
  /\ calls (Abort r) = [js_open "GET" "/endpoint" true]
  /\ Send None [Fire "timeout"; Run 0] (Abort r) = SendReturns (Some ErrTimeout)
       (match Send None [Fire "timeout"; Run 0] r with
        | SendReturns _ r' => r'
        | _ => r
        end).
Proof.
  intros r.
  destruct (Abort_before_Send_noop r) as (H1 & H2 & _ & H4 & _).
  - split; reflexivity.
  - split; [exact H1|]. split; [rewrite H2; reflexivity|].
    rewrite H4. reflexivity.
Defined.

(** C8 does not hold for every handle without an outstanding send: once
    [Send] has returned, the channel is still there, and [Abort] calls
    [abort] on the object and puts [ErrAborted] into the emptied
    channel. *)
Lemma Abort_after_Send_not_noop :
  ~ (forall (acts : list Action) (w : World),
       run acts (new_world (NewRequest "GET" "/endpoint")) = Ok w ->
       outstanding w = false ->
       calls (Abort (req w)) = calls (req w)).
Proof.
  intros H.
  specialize (H [CallSend None; Fire "load"; Run 0; Wake] _ eq_refl eq_refl).
  cbv in H. discriminate.
Qed.

(** ** The transport *)

Lemma set_values_unsent (k : string) (v : list string) (x : Request) :
  ch (set_values k v x) = ch x /\ listeners (set_values k v x) = listeners x.
Proof.
  revert x. induction v as [|vv v IH]; intros x; cbn; [auto|].
  destruct (IH (SetRequestHeader k vv x)) as [-> ->]. auto.
Qed.

Lemma set_headers_unsent (h : list (string * list string)) (x : Request) :
  ch (set_headers h x) = ch x /\ listeners (set_headers h x) = listeners x.
Proof.
  revert x. induction h as [|[k v] h IH]; intros x; cbn; [auto|].
  destruct (IH (set_values k v x)) as [-> ->]. apply set_values_unsent.
Qed.

Lemma prepare_unsent (env : Env) (rq : HttpRequest) : unsent (prepare env rq).
Proof.
  unfold unsent, prepare.
  destruct (set_headers_unsent (range_Header env)
              (set_ResponseType ArrayBuffer (NewRequest (Method rq) (URL rq))))
    as [-> ->].
  split; reflexivity.
Qed.

Lemma resolve_no_Send (t : Transport) (xp : XhrPtr) (sched : list TAction) :
  no_Send (resolve t xp sched) = true.
Proof.
  induction sched as [|a sched IH]; [reflexivity|].
  unfold resolve, no_Send in *. cbn [flat_map]. rewrite forallb_app, IH.
  destruct a; try reflexivity.
  destruct (inflight_get t p) as [x|]; [|reflexivity].
  destruct (decide (x = xp)); reflexivity.
Qed.

(** A schedule without a second [Send] never makes [Send] panic. *)
Lemma Send_no_panic (data : option bytes) (sched : list Action) (r : Request) :
  unsent r -> no_Send sched = true ->
  (exists val r', Send data sched r = SendReturns val r')
  \/ (exists r', Send data sched r = SendBlocked r').
Proof.
  intros Hu Hn.
  destruct (Send_dispatch_unsent data r (proj1 Hu)) as (r0 & Hd & _).
  pose proof (in_flight_start data r r0 Hu Hd) as H0.
  assert (Hn' : no_Send (sched ++ [Wake]) = true).
  { unfold no_Send in *. rewrite forallb_app, Hn. reflexivity. }
  destruct (run_in_flight _ [] _ H0 Hn') as (w & Hr & _).
  unfold Send. cbn [run step new_world req spawned]. rewrite Hd, Hr.
  destruct (caller w); eauto.
Qed.

Lemma blocking_Send_no_panic (env : Env) (t : Transport) (rq : HttpRequest) :
  (exists val x, blocking_Send env t rq = SendReturns val x)
  \/ (exists x, blocking_Send env t rq = SendBlocked x).
Proof.
  apply Send_no_panic; [apply prepare_unsent | apply resolve_no_Send].
Qed.

Lemma inflight_get_registered (p : ReqPtr) (xp : XhrPtr) (t : Transport) :
  inflight_get (setCanceler p (Some xp) t) p = Some xp.
Proof. unfold inflight_get, setCanceler. cbn. apply lookup_insert_eq. Qed.

Lemma inflight_get_removed (p : ReqPtr) (t : Transport) :
  inflight_get (setCanceler p None t) p = None.
Proof. unfold inflight_get, setCanceler. cbn. apply lookup_delete_eq. Qed.

Lemma build_response_returns (lib : Lib) (rq : HttpRequest) (x : Request)
    (payload : bytes) :
  exists resp err, build_response lib rq x payload = Returns resp err.
Proof.
  unfold build_response.
  destruct (ReadMIMEHeader lib (ResponseHeaders x)) as [headers herr].
  destruct (fatal herr); [eauto|].
  destruct (version_of lib headers) as [[proto major] minor]. eauto.
Qed.

(** [resolve] turns a [Cancel] into what [CancelRequest] does to the
    handle. *)
Lemma Cancel_is_CancelRequest (t : Transport) (xp : XhrPtr) (p : ReqPtr)
    (w : World) :
  run (resolve t xp [Cancel p]) w
  = Ok (mkWorld (CancelRequest t p xp (req w)) (spawned w) (caller w)).
Proof.
  unfold resolve, CancelRequest. cbn [flat_map]. rewrite app_nil_r.
  destruct (inflight_get t p) as [x|]; [destruct (decide (x = xp))|];
    cbn; destruct w; reflexivity.
Qed.

(** What [RoundTrip] returns once [Send] has returned. *)
Lemma RoundTrip_after_Send (lib : Lib) (env : Env) (t : Transport)
    (rq : HttpRequest) (val : option error) (x : Request) :
  Host rq = ""%string -> body_err (Body rq) = None ->
  blocking_Send env t rq = SendReturns val x ->
  o_xhr (RoundTrip lib env t rq) = Some x
  /\ o_ret (RoundTrip lib env t rq) =
     match val with
     | Some e => Returns None (Some e)
     | None =>
         match Response x with
         | None => Returns None (Some ErrAborted)
         | Some payload => build_response lib rq x payload
         end
     end.
Proof.
  intros Hh Hb Hs. unfold RoundTrip. rewrite Hh, Hb, Hs. cbn [String.eqb negb].
  destruct val; [|destruct (Response x)]; split; reflexivity.
Qed.

(** What a [RoundTrip] that returned a response went through. *)
Lemma RoundTrip_response (lib : Lib) (env : Env) (t : Transport)
    (rq : HttpRequest) (resp : HttpResponse) (err : option error) :
  o_ret (RoundTrip lib env t rq) = Returns (Some resp) err ->
  exists x payload,
    blocking_Send env t rq = SendReturns None x
    /\ Response x = Some payload
    /\ o_xhr (RoundTrip lib env t rq) = Some x
    /\ build_response lib rq x payload = Returns (Some resp) err.
Proof.
  unfold RoundTrip.
  destruct (negb (String.eqb (Host rq) "")); [discriminate|].
  destruct (body_err (Body rq)); [discriminate|].
  destruct (blocking_Send env t rq) as [msg|x|val x]; try discriminate.
  destruct val; [discriminate|].
  destruct (Response x) as [payload|] eqn:Ep; [|discriminate].
  cbn. intros H. exists x, payload. auto.
Qed.

(** C4. When [Send] returns nil and the [Response] of the handle is nil,
    [RoundTrip] returns no response and [ErrAborted]: the very return of
    a [RoundTrip] whose [Send] returned [ErrAborted]. *)
Theorem cleared_response_is_abort (lib : Lib) (env env' : Env) (t : Transport)
    (rq : HttpRequest) (x x' : Request) :
  Host rq = ""%string -> body_err (Body rq) = None ->
  blocking_Send env t rq = SendReturns None x -> Response x = None ->
  blocking_Send env' t rq = SendReturns (Some ErrAborted) x' ->
  o_ret (RoundTrip lib env t rq) = Returns None (Some ErrAborted)
  /\ o_ret (RoundTrip lib env' t rq) = o_ret (RoundTrip lib env t rq).
Proof.
  intros Hh Hb Hs Hr Hs'.
  destruct (RoundTrip_after_Send lib env t rq None x Hh Hb Hs) as [_ ->].
  destruct (RoundTrip_after_Send lib env' t rq _ x' Hh Hb Hs') as [_ ->].
  rewrite Hr. split; reflexivity.
Qed.

(** C5. A request with [Host] set is turned down at once: the error is
    returned, no handle exists, nothing was done to the body, to the
    registry or to the network, and the transport is as it was. *)
Theorem Host_rejected_first (lib : Lib) (env : Env) (t : Transport)
    (rq : HttpRequest) :
  Host rq <> ""%string ->
  RoundTrip lib env t rq = mkOutcome t None [] (Returns None (Some ErrHostHeader)).
Proof.
  intros Hh. unfold RoundTrip.
  destruct (String.eqb_spec (Host rq) ""); [contradiction | reflexivity].
Qed.

(** C10. The response of a [RoundTrip] carries the address of the request
    it was called with in its [Request] field, never nil, and comes with a
    nil error. *)
Theorem response_keeps_request (lib : Lib) (env : Env) (t : Transport)
    (rq : HttpRequest) (resp : HttpResponse) (err : option error) :
  o_ret (RoundTrip lib env t rq) = Returns (Some resp) err ->
  r_Request resp = Some (addr rq) /\ err = None.
Proof.
  intros H. apply RoundTrip_response in H as (x & payload & _ & _ & _ & H).
  unfold build_response in H.
  destruct (ReadMIMEHeader lib (ResponseHeaders x)) as [headers herr].
  destruct (fatal herr); [discriminate|].
  destruct (version_of lib headers) as [[proto major] minor].
  inversion H; subst. split; reflexivity.
Qed.

(** C9. In the response of a [RoundTrip] the headers are what
    [ReadMIMEHeader] made of the header string of the handle; with a
    first value [v] under ["Version"] the protocol is [v] and the version
    numbers are those [ParseHTTPVersion] returns for [v], its [ok] being
    dropped; without one the protocol is empty and the numbers are zero.
    Whenever [Send] returned nil with a payload and the header block was
    read without an error other than [io.EOF], there is a response,
    whatever the version token is.  Go's [ParseHTTPVersion] returns zeros
    with [ok = false], and on the block of the scenario the headers hold
    the content type and the version is 1.1. *)
Theorem version_from_pseudo_header (lib : Lib) (env : Env) (t : Transport)
    (rq : HttpRequest) (x : Request) (payload : bytes) :
  Host rq = ""%string -> body_err (Body rq) = None ->
  blocking_Send env t rq = SendReturns None x ->
  Response x = Some payload ->
  fatal (snd (ReadMIMEHeader lib (ResponseHeaders x))) = false ->
  (exists resp,
     o_ret (RoundTrip lib env t rq) = Returns (Some resp) None
     /\ r_Header resp = fst (ReadMIMEHeader lib (ResponseHeaders x))
     /\ match r_Header resp !! "Version" with
        | Some (v :: _) =>
            r_Proto resp = v
            /\ (r_ProtoMajor resp, r_ProtoMinor resp) = fst (ParseHTTPVersion lib v)
        | _ =>
            r_Proto resp = ""%string
            /\ r_ProtoMajor resp = 0%Z /\ r_ProtoMinor resp = 0%Z
        end)
  /\ (forall v, snd (GoStd.ParseHTTPVersion v) = false ->
        fst (GoStd.ParseHTTPVersion v) = (0, 0)%Z)
  /\ (let h := fst (GoStd.ReadMIMEHeader
                      ("Version: HTTP/1.1" ++ CRLF
                       ++ "Content-Type: application/json" ++ CRLF ++ CRLF)) in
      h !! "Content-Type" = Some ["application/json"%string]
      /\ version_of GoStd.lib h = ("HTTP/1.1"%string, 1%Z, 1%Z)).
Proof.
  intros Hh Hb Hs Hp Hf. split; [|split].
  - destruct (RoundTrip_after_Send lib env t rq None x Hh Hb Hs) as [_ ->].
    rewrite Hp. unfold build_response.
    destruct (ReadMIMEHeader lib (ResponseHeaders x)) as [headers herr].
    cbn in Hf. rewrite Hf. unfold version_of.
    destruct (headers !! "Version") as [[|v vs]|] eqn:Ev.
    + eexists. split; [reflexivity|]. cbn. rewrite Ev. auto.
    + destruct (ParseHTTPVersion lib v) as [[major minor] ok] eqn:Epv.
      eexists. split; [reflexivity|]. cbn. rewrite Ev, Epv. auto.
    + eexists. split; [reflexivity|]. cbn. rewrite Ev. auto.
  - intros v. unfold GoStd.ParseHTTPVersion.
    repeat match goal with
           | |- context [if ?b then _ else _] => destruct b
           | |- context [match ?o with Some _ => _ | None => _ end] => destruct o
           end; cbn; intros; try reflexivity; discriminate.
  - vm_compute. split; reflexivity.
Qed.

(** ** Request headers *)

Lemma header_calls_Call (c : JsCall) (x : Request) :
  header_calls (Call c x) =
  header_calls x ++ match c with
                    | js_setRequestHeader header value => [(header, value)]
                    | _ => []
                    end.
Proof.
  unfold header_calls, Call. cbn [calls]. rewrite flat_map_app. cbn [flat_map].
  rewrite app_nil_r. reflexivity.
Qed.

Lemma header_calls_set_values (k : string) (v : list string) (x : Request) :
  header_calls (set_values k v x) = header_calls x ++ map (pair k) v.
Proof.
  revert x. induction v as [|vv v IH]; intros x; cbn [set_values map].
  - rewrite app_nil_r. reflexivity.
  - rewrite IH. unfold SetRequestHeader. rewrite header_calls_Call.
    rewrite <- app_assoc. reflexivity.
Qed.

Lemma header_calls_set_headers (h : list (string * list string)) (x : Request) :
  header_calls (set_headers h x) = header_calls x ++ flat_map forwarded h.
Proof.
  revert x. induction h as [|[k v] h IH]; intros x; cbn [set_headers flat_map].
  - rewrite app_nil_r. reflexivity.
  - rewrite IH, header_calls_set_values, <- app_assoc. reflexivity.
Qed.

Lemma header_calls_prepare (env : Env) (rq : HttpRequest) :
  header_calls (prepare env rq) = flat_map forwarded (range_Header env).
Proof. unfold prepare. rewrite header_calls_set_headers. reflexivity. Qed.

Lemma named_same (k : string) (v : list string) :
  List.filter (named k) (map (pair k) v) = map (pair k) v.
Proof.
  induction v as [|vv v IH]; [reflexivity|].
  cbn [map List.filter]. unfold named at 1. cbn [fst].
  rewrite String.eqb_refl. f_equal. exact IH.
Qed.

Lemma named_other (k k' : string) (v : list string) :
  k' <> k -> List.filter (named k) (map (pair k') v) = [].
Proof.
  intros Hne. induction v as [|vv v IH]; [reflexivity|].
  cbn [map List.filter]. unfold named at 1. cbn [fst].
  destruct (String.eqb_spec k' k); [contradiction | exact IH].
Qed.

Lemma named_absent (k : string) (h : list (string * list string)) :
  k ∉ h.*1 -> List.filter (named k) (flat_map forwarded h) = [].
Proof.
  induction h as [|[k' v] h IH]; [reflexivity|].
  cbn [fmap list_fmap flat_map fst]. intros Hn.
  apply not_elem_of_cons in Hn as [Hne Hn].
  rewrite List.filter_app, (IH Hn). unfold forwarded. cbn [fst snd].
  rewrite named_other by congruence. reflexivity.
Qed.

Lemma named_present (k : string) (v : list string)
    (h : list (string * list string)) :
  NoDup h.*1 -> (k, v) ∈ h ->
  List.filter (named k) (flat_map forwarded h) = map (pair k) v.
Proof.
  induction h as [|[k' v'] h IH]; intros Hnd Hin.
  - apply elem_of_nil in Hin. contradiction.
  - cbn [fmap list_fmap flat_map fst] in *.
    apply NoDup_cons in Hnd as [Hk' Hnd].
    rewrite List.filter_app. unfold forwarded at 1. cbn [fst snd].
    apply elem_of_cons in Hin as [Heq|Hin].
    + inversion Heq; subst k' v'.
      rewrite named_same, (named_absent k h Hk'), app_nil_r. reflexivity.
    + assert (Hne : k' <> k).
      { intros ->. apply Hk'. apply list_elem_of_fmap. exists (k, v). auto. }
      rewrite (named_other k k' v' Hne), (IH Hnd Hin). reflexivity.
Qed.

Lemma step_header_calls (a : Action) (w w' : World) :
  step a w = Ok w' -> header_calls (req w') = header_calls (req w).
Proof.
  destruct a; cbn; intros H.
  - destruct (ch (req w)) eqn:Ech.
    { rewrite Send_dispatch_sent in H by congruence. discriminate. }
    destruct (Send_dispatch_unsent data (req w) Ech)
      as (r0 & Hd & _ & _ & _ & Hcalls).
    rewrite Hd in H. inversion H; subst; cbn [req].
    unfold header_calls. rewrite Hcalls, flat_map_app. cbn [flat_map].
    rewrite app_nil_r. reflexivity.
  - destruct (caller w), (ch (req w)) as [[|v buf]|];
      inversion H; subst; reflexivity.
  - inversion H; subst; reflexivity.
  - destruct (spawned w !! i) as [v|], (ch (req w)) as [buf|];
      try (inversion H; subst; reflexivity).
    destruct (try_send v buf); inversion H; subst; reflexivity.
  - inversion H; subst; cbn. unfold Abort.
    destruct (ch (req w)) as [buf|]; [|reflexivity].
    destruct (try_send _ buf); cbn; unfold header_calls; cbn;
      rewrite flat_map_app; cbn; rewrite app_nil_r; reflexivity.
  - inversion H; subst; reflexivity.
Qed.

Lemma run_header_calls (acts : list Action) (w w' : World) :
  run acts w = Ok w' -> header_calls (req w') = header_calls (req w).
Proof.
  revert w. induction acts as [|a acts IH]; intros w H; cbn in H.
  - inversion H; subst; reflexivity.
  - destruct (step a w) as [w1|] eqn:E; [|discriminate].
    rewrite (IH _ H). eapply step_header_calls; eassumption.
Qed.

Lemma Send_header_calls (data : option bytes) (sched : list Action)
    (r r' : Request) :
  (exists val, Send data sched r = SendReturns val r')
    \/ Send data sched r = SendBlocked r' ->
  header_calls r' = header_calls r.
Proof.
  unfold Send. destruct (run _ _) as [w|] eqn:E.
  - apply run_header_calls in E. cbn in E.
    intros [[val H]|H]; destruct (caller w); inversion H; subst; exact E.
  - intros [[val H]|H]; discriminate.
Qed.

(** C7. [RoundTrip] calls [setRequestHeader] once for every value of
    every header, a name at a time in the order [range] visits the map
    and the values of a name in the order of its slice: for each name the
    calls under that name are exactly its values in their order (none for
    a name that is not in the map), and the handle that [RoundTrip] sends
    carries these calls and no other [setRequestHeader]. *)
Theorem headers_all_forwarded (lib : Lib) (env : Env) (t : Transport)
    (rq : HttpRequest) :
  Host rq = ""%string -> range_of env (Header rq) ->
  header_calls (prepare env rq) = flat_map forwarded (range_Header env)
  /\ (forall k, List.filter (named k) (header_calls (prepare env rq))
                = map (pair k) (default [] (Header rq !! k)))
  /\ exists x, o_xhr (RoundTrip lib env t rq) = Some x
               /\ header_calls x = header_calls (prepare env rq).
Proof.
  intros Hh Hrange. unfold range_of in Hrange.
  split; [apply header_calls_prepare|]. split.
  - intros k. rewrite header_calls_prepare.
    assert (Hnd : NoDup (range_Header env).*1).
    { rewrite Hrange. apply NoDup_fst_map_to_list. }
    destruct (Header rq !! k) as [v|] eqn:Ek; cbn [default].
    + apply named_present; [exact Hnd|].
      rewrite Hrange. apply elem_of_map_to_list. exact Ek.
    + apply named_absent. intros Hin.
      apply list_elem_of_fmap in Hin as ([k' v] & Hk & Hin). cbn in Hk. subst k'.
      rewrite Hrange in Hin. apply elem_of_map_to_list in Hin. congruence.
  - unfold RoundTrip. rewrite Hh. cbn [String.eqb negb].
    destruct (body_err (Body rq)); [eexists; split; reflexivity|].
    destruct (blocking_Send env t rq) as [msg|x|val x] eqn:Es.
    + eexists; split; reflexivity.
    + exists x. split; [reflexivity|].
      apply (Send_header_calls _ _ _ _ (or_intror Es)).
    + exists x. split.
      * destruct val; [|destruct (Response x)]; reflexivity.
      * apply (Send_header_calls _ _ _ _ (or_introl (ex_intro _ val Es))).
Qed.

(** ** The worked exchange *)

Lemma cleared_response_is_abort_witness :
  o_ret (RoundTrip GoStd.lib (ex_env ex_late_cancel) ex_transport ex_request)
    = Returns None (Some ErrAborted)
  /\ o_ret (RoundTrip GoStd.lib (ex_env ex_cancel) ex_transport ex_request)
     = o_ret (RoundTrip GoStd.lib (ex_env ex_late_cancel) ex_transport ex_request).
Proof.
  apply (cleared_response_is_abort GoStd.lib (ex_env ex_late_cancel)
           (ex_env ex_cancel) ex_transport ex_request
           (returned_handle
              (blocking_Send (ex_env ex_late_cancel) ex_transport ex_request))
           (returned_handle
              (blocking_Send (ex_env ex_cancel) ex_transport ex_request)));
    vm_compute; reflexivity.
Defined.

Lemma Host_rejected_first_witness :
  RoundTrip GoStd.lib (ex_env ex_success) ex_transport ex_override
  = mkOutcome ex_transport None [] (Returns None (Some ErrHostHeader)).
Proof.
  apply (Host_rejected_first GoStd.lib (ex_env ex_success) ex_transport
           ex_override).
  vm_compute. discriminate.
Defined.

Lemma headers_all_forwarded_witness :
  List.filter (named "Accept")
    (header_calls (prepare (ex_env ex_success) ex_request))
  = [("Accept", "text/plain"); ("Accept", "application/json")]%string
  /\ length (header_calls (prepare (ex_env ex_success) ex_request)) = 3%nat.
Proof.
  destruct (headers_all_forwarded GoStd.lib (ex_env ex_success) ex_transport
              ex_request) as (H1 & H2 & _).
  - reflexivity.
  - unfold range_of. reflexivity.
  - split.
    + rewrite (H2 "Accept"%string). vm_compute. reflexivity.
    + rewrite H1. vm_compute. reflexivity.
Defined.

Lemma version_from_pseudo_header_witness :
  exists resp,
    o_ret (RoundTrip GoStd.lib (ex_env ex_success) ex_transport ex_request)
      = Returns (Some resp) None
    /\ r_ProtoMajor resp = 1%Z /\ r_ProtoMinor resp = 1%Z
    /\ r_Header resp !! "Content-Type" = Some ["application/json"%string].
Proof.
  destruct (version_from_pseudo_header GoStd.lib (ex_env ex_success)
              ex_transport ex_request
              (returned_handle
                 (blocking_Send (ex_env ex_success) ex_transport ex_request))
              hello)
    as [(resp & Hret & Hh & Hv) _]; try (vm_compute; reflexivity).
  exists resp. split; [exact Hret|].
  rewrite Hh in Hv |- *. vm_compute in Hv |- *.
  destruct Hv as [_ Hv]. inversion Hv. repeat split; reflexivity.
Defined.

Lemma response_keeps_request_witness :
  exists resp,
    o_ret (RoundTrip GoStd.lib (ex_env ex_success) ex_transport ex_request)
      = Returns (Some resp) None
    /\ r_Request resp = Some 1%positive.
Proof.
  eexists. split; [vm_compute; reflexivity|].
  eapply (response_keeps_request GoStd.lib (ex_env ex_success) ex_transport
            ex_request).
  vm_compute. reflexivity.
Defined.

(** The first scenario of the exchange: status 200, the body [hello] and
    its length. *)
Example ex_success_response :
  exists resp,
    o_ret (RoundTrip GoStd.lib (ex_env ex_success) ex_transport ex_request)
      = Returns (Some resp) None
    /\ r_StatusCode resp = 200%Z /\ r_Status resp = "200 OK"%string
    /\ r_Body resp = hello /\ r_ContentLength resp = 5%Z.
Proof. eexists. split; [vm_compute; reflexivity|]. repeat split. Qed.

(** The third scenario: [CancelRequest] right after the registration,
    before the browser answers, aborts the handle and [RoundTrip] returns
    [ErrAborted]. *)
Example ex_cancelled :
  exists x,
    o_xhr (RoundTrip GoStd.lib (ex_env ex_cancel) ex_transport ex_request)
      = Some x
    /\ In js_abort (calls x)
    /\ o_ret (RoundTrip GoStd.lib (ex_env ex_cancel) ex_transport ex_request)
       = Returns None (Some ErrAborted).
Proof.
  eexists. split; [vm_compute; reflexivity|]. split; [|vm_compute; reflexivity].
  cbn. auto 10.
Qed.

(** The second scenario: a timeout gives [ErrTimeout] and no response. *)
Example ex_timeout :
  o_ret (RoundTrip GoStd.lib (ex_env [Dispatch "timeout"; Goroutine 0])
           ex_transport ex_request)
  = Returns None (Some ErrTimeout).
Proof. vm_compute. reflexivity. Qed.

(** * Further properties of the handle *)

Lemma explained_without_Wake (acts : list Action) (val : option error) :
  explained (acts ++ [Wake]) val -> explained acts val.
Proof.
  intros [[-> Hin]|(typ & Hin & Hl)].
  - left. split; [reflexivity|].
    apply in_app_or in Hin as [Hin|[Hin|[]]]; [exact Hin | discriminate].
  - right. exists typ. split; [|exact Hl].
    apply in_app_or in Hin as [Hin|[Hin|[]]]; [exact Hin | discriminate].
Qed.

Lemma no_Send_Wake (sched : list Action) :
  no_Send sched = true -> no_Send (sched ++ [Wake]) = true.
Proof. intros H. unfold no_Send in *. rewrite forallb_app, H. reflexivity. Qed.

(** The world in which the caller of [Send] ends under a schedule. *)
Lemma Send_run (data : option bytes) (sched : list Action) (r : Request) :
  unsent r -> no_Send sched = true ->
  exists r0 w,
    Send_dispatch data r = Ok r0
    /\ run (sched ++ [Wake]) (mkWorld r0 [] Waiting) = Ok w
    /\ in_flight (sched ++ [Wake]) w
    /\ Send data sched r = match caller w with
                           | Returned val => SendReturns val (req w)
                           | _ => SendBlocked (req w)
                           end.
Proof.
  intros Hu Hn.
  destruct (Send_dispatch_unsent data r (proj1 Hu)) as (r0 & Hd & _).
  pose proof (in_flight_start data r r0 Hu Hd) as H0.
  destruct (run_in_flight _ [] _ H0 (no_Send_Wake sched Hn)) as (w & Hr & Hi).
  exists r0, w.
  split; [exact Hd|]. split; [exact Hr|]. split; [exact Hi|].
  unfold Send. cbn [run step new_world req spawned]. rewrite Hd, Hr. reflexivity.
Qed.

Lemma Send_returns_explained (data : option bytes) (sched : list Action)
    (r r' : Request) (val : option error) :
  unsent r -> no_Send sched = true ->
  Send data sched r = SendReturns val r' ->
  (val = Some ErrAborted /\ In CallAbort sched)
  \/ (exists typ, listened typ = true /\ In (Fire typ) sched
                  /\ In (typ, val) Send_listeners).
Proof.
  intros Hu Hn Hs.
  destruct (Send_run data sched r Hu Hn) as (r0 & w & _ & _ & Hi & Hsend).
  rewrite Hsend in Hs. pose proof (inf_caller _ _ Hi) as Hc.
  destruct (caller w) as [| |val0]; try discriminate.
  inversion Hs; subst val0 r'.
  apply explained_without_Wake in Hc.
  destruct Hc as [Hab|(typ & Hin & Hl)]; [left; exact Hab | right].
  exists typ. split; [|split; assumption].
  cbn in Hl. destruct Hl as [Hl|[Hl|[Hl|[]]]]; inversion Hl; reflexivity.
Qed.

(** [Send] returns a value only if that value has a cause in the
    schedule: [ErrAborted] only if [Abort] was called, nil only if [load]
    was dispatched, [ErrFailure] only after [error], [ErrTimeout] only
    after [timeout]; nothing else is ever returned. *)
Theorem Send_returns_only_caused (data : option bytes) (sched : list Action)
    (r r' : Request) (val : option error) :
  unsent r -> no_Send sched = true ->
  Send data sched r = SendReturns val r' ->
  (val = Some ErrAborted /\ In CallAbort sched)
  \/ (val = None /\ In (Fire "load") sched)
  \/ (val = Some ErrFailure /\ In (Fire "error") sched)
  \/ (val = Some ErrTimeout /\ In (Fire "timeout") sched).
Proof.
  intros Hu Hn Hs.
  destruct (Send_returns_explained data sched r r' val Hu Hn Hs)
    as [Hab|(typ & _ & Hin & Hl)]; [left; exact Hab | right].
  cbn in Hl. destruct Hl as [Hl|[Hl|[Hl|[]]]]; inversion Hl; subst; auto.
Qed.

Lemma Send_returns_only_caused_witness :
  (Some ErrTimeout = Some ErrAborted /\ In CallAbort [Fire "timeout"; Run 0])
  \/ (Some ErrTimeout = None /\ In (Fire "load") [Fire "timeout"; Run 0])
  \/ (Some ErrTimeout = Some ErrFailure /\ In (Fire "error") [Fire "timeout"; Run 0])
  \/ (Some ErrTimeout = Some ErrTimeout /\ In (Fire "timeout") [Fire "timeout"; Run 0]).
Proof.
  apply (Send_returns_only_caused None [Fire "timeout"; Run 0]
           (NewRequest "GET" "/endpoint")
           (returned_handle
              (Send None [Fire "timeout"; Run 0] (NewRequest "GET" "/endpoint")))
           (Some ErrTimeout)).
  - split; reflexivity.
  - reflexivity.
  - reflexivity.
Defined.

Lemma quiet_no_Send (sched : list Action) :
  quiet sched = true -> no_Send sched = true.
Proof.
  unfold quiet, no_Send. intros H.
  apply forallb_forall. intros a Hin.
  apply (proj1 (forallb_forall _ _) H) in Hin.
  destruct a; try reflexivity; discriminate.
Qed.

(** As long as no listened event is dispatched and nobody aborts, [Send]
    does not return: events of other types, property changes and the
    scheduler alone never wake the caller. *)
Theorem Send_blocks_while_quiet (data : option bytes) (sched : list Action)
    (r : Request) :
  unsent r -> quiet sched = true ->
  exists r', Send data sched r = SendBlocked r'.
Proof.
  intros Hu Hq. pose proof (quiet_no_Send sched Hq) as Hn.
  destruct (Send_no_panic data sched r Hu Hn) as [(val & r' & Hs)|H];
    [exfalso | exact H].
  assert (Hno : forall a, In a sched ->
                  a <> CallAbort /\ forall typ, a = Fire typ -> listened typ = false).
  { intros a Hin. apply (proj1 (forallb_forall _ _) Hq) in Hin.
    destruct a; try discriminate; split; try discriminate.
    intros typ0 E. inversion E; subst. apply negb_true_iff. exact Hin. }
  destruct (Send_returns_explained data sched r r' val Hu Hn Hs)
    as [[_ Hin]|(typ & Hl & Hin & _)].
  - destruct (Hno _ Hin) as [Hne _]. congruence.
  - destruct (Hno _ Hin) as [_ Hf]. rewrite (Hf typ eq_refl) in Hl. discriminate.
Qed.

Lemma Send_blocks_while_quiet_witness :
  exists r', Send None [Fire "progress"; Browser ex_loaded; Run 0; Fire "abort"]
               (NewRequest "GET" "/endpoint") = SendBlocked r'.
Proof.
  apply (Send_blocks_while_quiet None
           [Fire "progress"; Browser ex_loaded; Run 0; Fire "abort"]
           (NewRequest "GET" "/endpoint")).
  - split; reflexivity.
  - reflexivity.
Defined.


Lemma Abort_calls (r : Request) :
  ch r <> None -> calls (Abort r) = calls r ++ [js_abort].
Proof.
  unfold Abort. destruct (ch r) as [buf|]; [|congruence]. intros _.
  destruct (try_send _ buf); reflexivity.
Qed.

Lemma replicate_snoc (n : nat) (c : JsCall) :
  replicate n c ++ [c] = replicate (S n) c.
Proof. induction n as [|n IH]; cbn; [reflexivity|]. rewrite IH. reflexivity. Qed.

(** With the channel made, a step other than [Send] adds a call to the
    log of the object only when it is an [Abort]. *)
Lemma step_calls (a : Action) (w w' : World) :
  is_CallSend a = false -> ch (req w) <> None -> step a w = Ok w' ->
  calls (req w') = calls (req w) ++ (if is_CallAbort a then [js_abort] else []).
Proof.
  intros Ha Hch Hs. destruct a; try discriminate; cbn in Hs |- *.
  - destruct (caller w), (ch (req w)) as [[|v buf]|];
      inversion Hs; subst; cbn; rewrite app_nil_r; reflexivity.
  - inversion Hs; subst; cbn. rewrite app_nil_r. reflexivity.
  - destruct (spawned w !! i) as [v|], (ch (req w)) as [buf|];
      try (inversion Hs; subst; cbn; rewrite app_nil_r; reflexivity).
    destruct (try_send v buf); inversion Hs; subst; cbn;
      rewrite app_nil_r; reflexivity.
  - inversion Hs; subst; cbn. apply Abort_calls. exact Hch.
  - inversion Hs; subst; cbn. rewrite app_nil_r. reflexivity.
Qed.

Lemma run_calls (acts : list Action) (w w' : World) :
  no_Send acts = true -> ch (req w) <> None -> run acts w = Ok w' ->
  calls (req w') = calls (req w) ++ replicate (aborts acts) js_abort.
Proof.
  revert w. induction acts as [|a acts IH]; intros w Hn Hch Hr; cbn in Hr.
  - inversion Hr; subst. cbn. rewrite app_nil_r. reflexivity.
  - cbn in Hn. apply andb_true_iff in Hn as [Ha Hn].
    apply negb_true_iff in Ha.
    destruct (step a w) as [w1|] eqn:Es; [|discriminate].
    rewrite (IH w1 Hn (step_keeps_ch a w w1 Hch Es) Hr).
    rewrite (step_calls a w w1 Ha Hch Es), <- app_assoc. f_equal.
    unfold aborts. cbn [List.filter].
    destruct (is_CallAbort a); reflexivity.
Qed.

Lemma aborts_Wake (sched : list Action) : aborts (sched ++ [Wake]) = aborts sched.
Proof.
  unfold aborts. rewrite List.filter_app, length_app. cbn. lia.
Qed.

Lemma Send_result_handle (data : option bytes) (sched : list Action)
    (r r' : Request) :
  unsent r -> no_Send sched = true ->
  (exists val, Send data sched r = SendReturns val r')
    \/ Send data sched r = SendBlocked r' ->
  exists r0 w,
    Send_dispatch data r = Ok r0
    /\ run (sched ++ [Wake]) (mkWorld r0 [] Waiting) = Ok w
    /\ in_flight (sched ++ [Wake]) w
    /\ r' = req w.
Proof.
  intros Hu Hn Hs.
  destruct (Send_run data sched r Hu Hn) as (r0 & w & Hd & Hr & Hi & Hsend).
  exists r0, w. split; [exact Hd|]. split; [exact Hr|]. split; [exact Hi|].
  rewrite Hsend in Hs.
  destruct Hs as [[val Hs]|Hs]; destruct (caller w); inversion Hs; reflexivity.
Qed.

Lemma Send_calls_after (data : option bytes) (sched : list Action)
    (r r' : Request) :
  unsent r -> no_Send sched = true ->
  (exists val, Send data sched r = SendReturns val r')
    \/ Send data sched r = SendBlocked r' ->
  calls r' = calls r ++ Send_calls data ++ replicate (aborts sched) js_abort.
Proof.
  intros Hu Hn Hs.
  destruct (Send_result_handle data sched r r' Hu Hn Hs)
    as (r0 & w & Hd & Hr & _ & ->).
  destruct (Send_dispatch_unsent data r (proj1 Hu))
    as (r1 & Hd1 & Hch & _ & _ & Hcalls).
  rewrite Hd in Hd1. inversion Hd1; subst r1.
  assert (Hch0 : ch (req (mkWorld r0 [] Waiting)) <> None)
    by (cbn; congruence).
  rewrite (run_calls (sched ++ [Wake]) (mkWorld r0 [] Waiting) w
             (no_Send_Wake sched Hn) Hch0 Hr).
  cbn [req]. rewrite Hcalls, aborts_Wake, <- app_assoc. reflexivity.
Qed.

(** The calls a handle has received when [Send] returns or is still
    blocked: what it had before, then the three listeners and the one
    [send] in this order, then one [abort] for each [Abort] called
    meanwhile.  [Send] dispatches exactly once, after its listeners are
    attached. *)
Theorem Send_call_log (data : option bytes) (sched : list Action)
    (r r' : Request) :
  unsent r -> no_Send sched = true ->
  (exists val, Send data sched r = SendReturns val r')
    \/ Send data sched r = SendBlocked r' ->
  calls r' = calls r ++ Send_calls data ++ replicate (aborts sched) js_abort.
Proof. apply Send_calls_after. Qed.

Lemma Send_call_log_witness :
  calls (returned_handle
           (Send None [CallAbort; Fire "load"; CallAbort]
              (NewRequest "GET" "/endpoint")))
  = [js_open "GET" "/endpoint" true] ++ Send_calls None ++ [js_abort; js_abort].
Proof.
  apply (Send_call_log None [CallAbort; Fire "load"; CallAbort]
           (NewRequest "GET" "/endpoint")).
  - split; reflexivity.
  - reflexivity.
  - left. exists (Some ErrAborted). vm_compute. reflexivity.
Defined.




(** ** The helper [xhr.Send] *)

(** The package function [Send] never panics (its handle is new); an
    error it returns comes with no data and has its cause in the
    schedule, and a nil error comes only after [load]; when [load] is
    delivered and the object shows a response, the data are the bytes of
    that response. *)
Theorem xhr_Send_results (method url : string) (data : option bytes)
    (sched : list Action) :
  no_Send sched = true ->
  (forall msg, xhr.Send method url data sched <> FetchPanics msg)
  /\ (forall got err, xhr.Send method url data sched = Fetch got err ->
        (err = None /\ In (Fire "load") sched)
        \/ (got = None
            /\ ((err = Some ErrAborted /\ In CallAbort sched)
                \/ (err = Some ErrFailure /\ In (Fire "error") sched)
                \/ (err = Some ErrTimeout /\ In (Fire "timeout") sched))))
  /\ (forall p payload, p_response p = Some payload ->
        xhr.Send method url data [Browser p; Fire "load"; Run 0]
        = Fetch (Some payload) None).
Proof.
  intros Hn.
  set (x := set_ResponseType ArrayBuffer (NewRequest method url)).
  assert (Hu : unsent x) by (split; reflexivity).
  split; [|split].
  - intros msg. unfold xhr.Send. fold x.
    destruct (Send_no_panic data sched x Hu Hn) as [(val & r' & ->)|(r' & ->)];
      [destruct val|]; discriminate.
  - intros got err. unfold xhr.Send. fold x.
    destruct (Send data sched x) as [msg|r'|val r'] eqn:Es; try discriminate.
    destruct (Send_returns_explained data sched x r' val Hu Hn Es)
      as [[-> Hin]|(typ & _ & Hin & Hl)].
    + intros H. inversion H; subst. right. auto.
    + cbn in Hl. destruct Hl as [Hl|[Hl|[Hl|[]]]]; inversion Hl; subst;
        intros H; inversion H; subst; [left | right | right]; auto.
  - intros p payload Hpay. unfold xhr.Send. fold x.
    destruct (load_keeps_status data p x Hu) as (r' & -> & Hp).
    unfold Response. rewrite Hp, Hpay. reflexivity.
Qed.

Lemma xhr_Send_results_witness :
  xhr.Send "POST" "/endpoint" (Some hello) [Browser ex_loaded; Fire "load"; Run 0]
  = Fetch (Some hello) None.
Proof.
  destruct (xhr_Send_results "POST" "/endpoint" (Some hello)
              [Browser ex_loaded; Fire "load"; Run 0]) as (_ & _ & H).
  - reflexivity.
  - exact (H ex_loaded hello eq_refl).
Defined.

(** * Further properties of the transport *)

Lemma RoundTrip_sent (lib : Lib) (env : Env) (t : Transport)
    (rq : HttpRequest) (val : option error) (x : Request) :
  Host rq = ""%string -> body_err (Body rq) = None ->
  blocking_Send env t rq = SendReturns val x ->
  RoundTrip lib env t rq
  = mkOutcome (setCanceler (addr rq) None (registered env t rq)) (Some x)
      ((EfNewRequest (new_xhr env) :: reading (Body rq)
         ++ [EfSetCanceler (addr rq) (Some (new_xhr env));
             EfSend (body_data (Body rq))])
       ++ EfSetCanceler (addr rq) None :: closing (Body rq))
      (match val with
       | Some e => Returns None (Some e)
       | None =>
           match Response x with
           | None => Returns None (Some ErrAborted)
           | Some payload => build_response lib rq x payload
           end
       end).
Proof.
  intros Hh Hb Hs. unfold RoundTrip. rewrite Hh, Hb, Hs. cbn [String.eqb negb].
  destruct val; [|destruct (Response x)]; reflexivity.
Qed.

Lemma RoundTrip_blocked (lib : Lib) (env : Env) (t : Transport)
    (rq : HttpRequest) (x : Request) :
  Host rq = ""%string -> body_err (Body rq) = None ->
  blocking_Send env t rq = SendBlocked x ->
  RoundTrip lib env t rq
  = mkOutcome (registered env t rq) (Some x)
      (EfNewRequest (new_xhr env) :: reading (Body rq)
         ++ [EfSetCanceler (addr rq) (Some (new_xhr env));
             EfSend (body_data (Body rq))])
      Blocks.
Proof.
  intros Hh Hb Hs. unfold RoundTrip. rewrite Hh, Hb, Hs. reflexivity.
Qed.

Lemma calls_set_values (k : string) (v : list string) (x : Request) :
  calls (set_values k v x) = calls x ++ map header_call (map (pair k) v).
Proof.
  revert x. induction v as [|vv v IH]; intros x; cbn [set_values map].
  - rewrite app_nil_r. reflexivity.
  - rewrite IH. cbn. rewrite <- app_assoc. reflexivity.
Qed.

Lemma calls_set_headers (h : list (string * list string)) (x : Request) :
  calls (set_headers h x) = calls x ++ map header_call (flat_map forwarded h).
Proof.
  revert x. induction h as [|[k v] h IH]; intros x; cbn [set_headers flat_map].
  - rewrite app_nil_r. reflexivity.
  - rewrite IH, calls_set_values, map_app, <- app_assoc. reflexivity.
Qed.

Lemma calls_prepare (env : Env) (rq : HttpRequest) :
  calls (prepare env rq)
  = js_open (Method rq) (URL rq) true
      :: map header_call (flat_map forwarded (range_Header env)).
Proof. unfold prepare. rewrite calls_set_headers. reflexivity. Qed.

Lemma ResponseType_set_values (k : string) (v : list string) (x : Request) :
  ResponseType (set_values k v x) = ResponseType x.
Proof.
  revert x. induction v as [|vv v IH]; intros x; cbn; [reflexivity|].
  rewrite IH. reflexivity.
Qed.

Lemma ResponseType_prepare (env : Env) (rq : HttpRequest) :
  ResponseType (prepare env rq) = ArrayBuffer.
Proof.
  unfold prepare.
  generalize (NewRequest (Method rq) (URL rq)). intros x0.
  assert (H : forall h x, ResponseType (set_headers h x) = ResponseType x).
  { induction h as [|[k v] h IH]; intros x; cbn; [reflexivity|].
    rewrite IH. apply ResponseType_set_values. }
  rewrite H. reflexivity.
Qed.

(** No step touches the [ResponseType] of the handle. *)
Lemma step_ResponseType (a : Action) (w w' : World) :
  step a w = Ok w' -> ResponseType (req w') = ResponseType (req w).
Proof.
  destruct a; cbn; intros H.
  - unfold Send_dispatch in H. destruct (ch (req w)); [discriminate|].
    inversion H; subst; reflexivity.
  - destruct (caller w), (ch (req w)) as [[|v buf]|];
      inversion H; subst; reflexivity.
  - inversion H; subst; reflexivity.
  - destruct (spawned w !! i) as [v|], (ch (req w)) as [buf|];
      try (inversion H; subst; reflexivity).
    destruct (try_send v buf); inversion H; subst; reflexivity.
  - inversion H; subst; cbn. unfold Abort.
    destruct (ch (req w)) as [buf|]; [|reflexivity].
    destruct (try_send _ buf); reflexivity.
  - inversion H; subst; reflexivity.
Qed.

Lemma run_ResponseType (acts : list Action) (w w' : World) :
  run acts w = Ok w' -> ResponseType (req w') = ResponseType (req w).
Proof.
  revert w. induction acts as [|a acts IH]; intros w H; cbn in H.
  - inversion H; subst; reflexivity.
  - destruct (step a w) as [w1|] eqn:E; [|discriminate].
    rewrite (IH _ H). eapply step_ResponseType; eassumption.
Qed.

Lemma Send_ResponseType (data : option bytes) (sched : list Action)
    (r r' : Request) :
  (exists val, Send data sched r = SendReturns val r')
    \/ Send data sched r = SendBlocked r' ->
  ResponseType r' = ResponseType r.
Proof.
  unfold Send. destruct (run _ _) as [w|] eqn:E.
  - apply run_ResponseType in E. cbn in E.
    intros [[val H]|H]; destruct (caller w); inversion H; subst; exact E.
  - intros [[val H]|H]; discriminate.
Qed.

Lemma Host_rejected_aux (lib : Lib) (env : Env) (t : Transport)
    (rq : HttpRequest) :
  Host rq <> ""%string ->
  RoundTrip lib env t rq = mkOutcome t None [] (Returns None (Some ErrHostHeader)).
Proof.
  intros Hh. unfold RoundTrip.
  destruct (String.eqb_spec (Host rq) ""); [contradiction | reflexivity].
Qed.

(** [RoundTrip] never panics: the handle it sends is new, and nothing
    outside can call [Send] on it. *)
Theorem RoundTrip_never_panics (lib : Lib) (env : Env) (t : Transport)
    (rq : HttpRequest) (msg : string) :
  o_ret (RoundTrip lib env t rq) <> Panics msg.
Proof.
  unfold RoundTrip.
  destruct (negb (String.eqb (Host rq) "")); [discriminate|].
  destruct (body_err (Body rq)); [discriminate|].
  destruct (blocking_Send_no_panic env t rq) as [(val & x & ->)|(x & ->)];
    [|discriminate].
  destruct val; [discriminate|]. destruct (Response x) as [payload|];
    [|discriminate].
  cbn. destruct (build_response_returns lib rq x payload) as (resp & err & ->).
  discriminate.
Qed.

(** When reading the body fails, [RoundTrip] returns that error and no
    response; the handle exists with its headers but nothing was
    registered and nothing was sent, and the body was closed. *)
Theorem body_error_stops_RoundTrip (lib : Lib) (env : Env) (t : Transport)
    (rq : HttpRequest) (e : error) :
  Host rq = ""%string -> body_err (Body rq) = Some e ->
  RoundTrip lib env t rq
  = mkOutcome t (Some (prepare env rq))
      [EfNewRequest (new_xhr env); EfReadAll; EfClose]
      (Returns None (Some e))
  /\ ch (prepare env rq) = None
  /\ forall data, ~ In (js_send data) (calls (prepare env rq)).
Proof.
  intros Hh Hb. split; [|split].
  - unfold RoundTrip. rewrite Hh, Hb. cbn [String.eqb negb].
    destruct (Body rq); [reflexivity | discriminate].
  - apply prepare_unsent.
  - intros data Hin. rewrite calls_prepare in Hin.
    destruct Hin as [Hin|Hin]; [discriminate|].
    apply in_map_iff in Hin as (c & Hc & _). discriminate.
Qed.

Lemma body_error_stops_RoundTrip_witness :
  let rq := mkHttpRequest 1%positive "PUT" "http://example.test/up" "" ∅
              (Some (mkReadCloser [] (Some (ErrForeign "unexpected EOF")))) in
  RoundTrip GoStd.lib (ex_env ex_success) ex_transport rq
  = mkOutcome ex_transport (Some (prepare (ex_env ex_success) rq))
      [EfNewRequest 5%positive; EfReadAll; EfClose]
      (Returns None (Some (ErrForeign "unexpected EOF"))).
Proof.
  intros rq.
  destruct (body_error_stops_RoundTrip GoStd.lib (ex_env ex_success)
              ex_transport rq (ErrForeign "unexpected EOF")) as (H & _).
  - reflexivity.
  - reflexivity.
  - exact H.
Defined.

(** The handle of a [RoundTrip] that got as far as [Send]. *)
Lemma RoundTrip_handle (lib : Lib) (env : Env) (t : Transport)
    (rq : HttpRequest) :
  Host rq = ""%string -> body_err (Body rq) = None ->
  exists x,
    o_xhr (RoundTrip lib env t rq) = Some x
    /\ ((exists val, blocking_Send env t rq = SendReturns val x)
        \/ blocking_Send env t rq = SendBlocked x).
Proof.
  intros Hh Hb.
  destruct (blocking_Send_no_panic env t rq) as [(val & x & Hs)|(x & Hs)];
    exists x.
  - rewrite (RoundTrip_sent lib env t rq val x Hh Hb Hs). eauto.
  - rewrite (RoundTrip_blocked lib env t rq x Hh Hb Hs). eauto.
Qed.

(** The calls that the handle of a [RoundTrip] receives, in order: [open]
    with the method and the URL, one [setRequestHeader] per header value,
    the three listeners, one [send] with the body that was read (nil
    without a body), and after that only [abort], once for each
    cancellation that reached the handle.  Its [ResponseType] is
    ["arraybuffer"]. *)
Theorem RoundTrip_call_log (lib : Lib) (env : Env) (t : Transport)
    (rq : HttpRequest) :
  Host rq = ""%string -> body_err (Body rq) = None ->
  exists x,
    o_xhr (RoundTrip lib env t rq) = Some x
    /\ calls x
       = js_open (Method rq) (URL rq) true
           :: map header_call (flat_map forwarded (range_Header env))
           ++ Send_calls (body_data (Body rq))
           ++ replicate
                (aborts (resolve (registered env t rq) (new_xhr env)
                           (during_Send env)))
                js_abort
    /\ ResponseType x = ArrayBuffer.
Proof.
  intros Hh Hb.
  destruct (RoundTrip_handle lib env t rq Hh Hb) as (x & Hx & Hs).
  exists x. split; [exact Hx|]. unfold blocking_Send in Hs. split.
  - rewrite (Send_calls_after _ _ _ x (prepare_unsent env rq)
               (resolve_no_Send _ _ _) Hs).
    rewrite calls_prepare. reflexivity.
  - rewrite (Send_ResponseType _ _ _ x Hs). apply ResponseType_prepare.
Qed.

Lemma RoundTrip_call_log_witness :
  exists x,
    o_xhr (RoundTrip GoStd.lib (ex_env ex_late_cancel) ex_transport ex_request)
      = Some x
    /\ calls x
       = [js_open "GET" "http://example.test/ok" true;
          js_setRequestHeader "Accept" "text/plain";
          js_setRequestHeader "Accept" "application/json";
          js_setRequestHeader "X-Trace" "7";
          js_addEventListener "load" false;
          js_addEventListener "error" false;
          js_addEventListener "timeout" false;
          js_send None;
          js_abort].
Proof.
  destruct (RoundTrip_call_log GoStd.lib (ex_env ex_late_cancel) ex_transport
              ex_request) as (x & Hx & Hc & _).
  - reflexivity.
  - reflexivity.
  - exists x. split; [exact Hx|]. rewrite Hc. vm_compute. reflexivity.
Defined.

(** A request without a body: [RoundTrip] neither reads nor closes
    anything, on no path, and what it sends carries nil data. *)
Theorem no_body_no_read (lib : Lib) (env : Env) (t : Transport)
    (rq : HttpRequest) :
  Body rq = None ->
  ~ In EfReadAll (o_effects (RoundTrip lib env t rq))
  /\ ~ In EfClose (o_effects (RoundTrip lib env t rq))
  /\ forall x data,
       o_xhr (RoundTrip lib env t rq) = Some x ->
       In (js_send data) (calls x) -> data = None.
Proof.
  intros Hbody.
  assert (Hb : body_err (Body rq) = None) by (rewrite Hbody; reflexivity).
  destruct (String.eqb_spec (Host rq) "") as [Hh|Hh].
  2:{ rewrite (Host_rejected_aux lib env t rq Hh). cbn.
      split; [tauto|]. split; [tauto|]. intros x data H. discriminate. }
  assert (Heff : forall e, In e (o_effects (RoundTrip lib env t rq)) ->
                   e <> EfReadAll /\ e <> EfClose).
  { destruct (blocking_Send_no_panic env t rq) as [(val & x & Hs)|(x & Hs)].
    - rewrite (RoundTrip_sent lib env t rq val x Hh Hb Hs), Hbody. cbn.
      intros e [<-|[<-|[<-|[<-|[]]]]]; split; discriminate.
    - rewrite (RoundTrip_blocked lib env t rq x Hh Hb Hs), Hbody. cbn.
      intros e [<-|[<-|[<-|[]]]]; split; discriminate. }
  split; [intros Hin; apply Heff in Hin; tauto|].
  split; [intros Hin; apply Heff in Hin; tauto|].
  intros x data Hx Hin.
  destruct (RoundTrip_handle lib env t rq Hh Hb) as (x' & Hx' & Hs).
  rewrite Hx in Hx'. inversion Hx'; subst x'. unfold blocking_Send in Hs.
  rewrite (Send_calls_after _ _ _ x (prepare_unsent env rq)
             (resolve_no_Send _ _ _) Hs) in Hin.
  rewrite calls_prepare, Hbody in Hin. cbn [body_data] in Hin.
  destruct Hin as [Hin|Hin]; [discriminate|].
  apply in_app_or in Hin as [Hin|Hin].
  { apply in_map_iff in Hin as (c & Hc & _). discriminate. }
  apply in_app_or in Hin as [Hin|Hin].
  - cbn in Hin. destruct Hin as [Hin|[Hin|[Hin|[Hin|[]]]]];
      inversion Hin; reflexivity.
  - apply list_elem_of_In, elem_of_replicate in Hin as [Hin _]. discriminate.
Qed.

Lemma no_body_no_read_witness :
  ~ In EfReadAll
      (o_effects (RoundTrip GoStd.lib (ex_env ex_success) ex_transport ex_request))
  /\ ~ In EfClose
        (o_effects (RoundTrip GoStd.lib (ex_env ex_success) ex_transport ex_request)).
Proof.
  destruct (no_body_no_read GoStd.lib (ex_env ex_success) ex_transport
              ex_request) as (H1 & H2 & _).
  - reflexivity.
  - split; assumption.
Defined.

(** The schedule of the handle for an event that is dispatched and
    delivered while [RoundTrip] is blocked. *)
Lemma blocking_Send_event (env : Env) (t : Transport) (rq : HttpRequest)
    (p : JsProps) (typ : string) (val : option error) (post : list TAction) :
  during_Send env = Props p :: Dispatch typ :: Goroutine 0 :: post ->
  List.filter (fun l => String.eqb (fst l) typ) Send_listeners = [(typ, val)] ->
  exists x, blocking_Send env t rq = SendReturns val x.
Proof.
  intros Hd Hf. unfold blocking_Send. rewrite Hd.
  change (resolve (registered env t rq) (new_xhr env)
            (Props p :: Dispatch typ :: Goroutine 0 :: post))
    with (Browser p :: Fire typ :: Run 0
            :: resolve (registered env t rq) (new_xhr env) post).
  apply event_decides;
    [apply prepare_unsent | apply resolve_no_Send | exact Hf].
Qed.

(** A failure of the exchange is returned as it is: when the browser
    dispatches [error] and the listener's value is delivered, [RoundTrip]
    returns [ErrFailure] and no response, and [ErrTimeout] after
    [timeout]; in both cases the registry holds no entry for the request
    afterwards, whatever else happens while [Send] is blocked. *)
Theorem RoundTrip_returns_Send_error (lib : Lib) (env : Env) (t : Transport)
    (rq : HttpRequest) (p : JsProps) (typ : string) (post : list TAction) :
  Host rq = ""%string -> body_err (Body rq) = None ->
  during_Send env = Props p :: Dispatch typ :: Goroutine 0 :: post ->
  typ = "error"%string \/ typ = "timeout"%string ->
  o_ret (RoundTrip lib env t rq)
  = Returns None (Some (if String.eqb typ "error" then ErrFailure else ErrTimeout))
  /\ inflight_get (o_transport (RoundTrip lib env t rq)) (addr rq) = None.
Proof.
  intros Hh Hb Hd Htyp.
  assert (Hs : exists x, blocking_Send env t rq
             = SendReturns
                 (Some (if String.eqb typ "error" then ErrFailure else ErrTimeout)) x).
  { destruct Htyp as [-> | ->];
      apply (blocking_Send_event env t rq p _ _ post Hd); reflexivity. }
  destruct Hs as (x & Hs).
  rewrite (RoundTrip_sent lib env t rq _ x Hh Hb Hs). cbn [o_ret o_transport].
  split; [reflexivity | apply inflight_get_removed].
Qed.

Lemma RoundTrip_returns_Send_error_witness :
  o_ret (RoundTrip GoStd.lib
           (ex_env [Props ex_cleared; Dispatch "timeout"; Goroutine 0;
                    Cancel 1%positive])
           ex_transport ex_request)
  = Returns None (Some ErrTimeout).
Proof.
  destruct (RoundTrip_returns_Send_error GoStd.lib
              (ex_env [Props ex_cleared; Dispatch "timeout"; Goroutine 0;
                       Cancel 1%positive])
              ex_transport ex_request ex_cleared "timeout" [Cancel 1%positive])
    as [H _].
  - reflexivity.
  - reflexivity.
  - reflexivity.
  - right. reflexivity.
  - exact H.
Defined.

(** What a response is made of: when the browser loads an answer and the
    header block is read without an error other than [io.EOF], the
    response has the status code of the object, the status line made of
    code and text, the headers as parsed, the payload as its body and the
    number of payload bytes as its content length. *)
Theorem RoundTrip_response_fields (lib : Lib) (env : Env) (t : Transport)
    (rq : HttpRequest) (p : JsProps) (payload : bytes) :
  Host rq = ""%string -> body_err (Body rq) = None ->
  during_Send env = [Props p; Dispatch "load"; Goroutine 0] ->
  p_response p = Some payload ->
  fatal (snd (ReadMIMEHeader lib (p_allResponseHeaders p))) = false ->
  exists resp,
    o_ret (RoundTrip lib env t rq) = Returns (Some resp) None
    /\ r_StatusCode resp = p_status p
    /\ r_Status resp = status_line (p_status p) (p_statusText p)
    /\ r_Header resp = fst (ReadMIMEHeader lib (p_allResponseHeaders p))
    /\ r_Body resp = payload
    /\ r_ContentLength resp = Z.of_nat (length payload).
Proof.
  intros Hh Hb Hd Hp Hf.
  destruct (load_keeps_status (body_data (Body rq)) p (prepare env rq)
              (prepare_unsent env rq)) as (x & Hs & Hx).
  assert (Hbs : blocking_Send env t rq = SendReturns None x).
  { unfold blocking_Send. rewrite Hd. exact Hs. }
  rewrite (RoundTrip_sent lib env t rq None x Hh Hb Hbs). cbn [o_ret].
  unfold Response, build_response, ResponseHeaders, Status, StatusText.
  rewrite Hx, Hp.
  destruct (ReadMIMEHeader lib (p_allResponseHeaders p)) as [headers herr].
  cbn in Hf. rewrite Hf.
  destruct (version_of lib headers) as [[proto major] minor].
  eexists. split; [reflexivity|]. cbn. auto.
Qed.

Lemma RoundTrip_response_fields_witness :
  exists resp,
    o_ret (RoundTrip GoStd.lib (ex_env ex_success) ex_transport ex_request)
      = Returns (Some resp) None
    /\ r_StatusCode resp = 200%Z
    /\ r_Status resp = "200 OK"%string
    /\ r_Body resp = hello
    /\ r_ContentLength resp = 5%Z.
Proof.
  destruct (RoundTrip_response_fields GoStd.lib (ex_env ex_success)
              ex_transport ex_request ex_loaded hello)
    as (resp & H0 & H1 & H2 & _ & H4 & H5); try reflexivity.
  exists resp. split; [exact H0|]. split; [exact H1|].
  split; [rewrite H2; vm_compute; reflexivity|].
  split; [exact H4 | exact H5].
Defined.

(** An error of [ReadMIMEHeader] other than [io.EOF] fails the
    [RoundTrip] although the exchange itself succeeded: the error is
    returned with no response; with [io.EOF] the headers read so far are
    used. *)
Theorem header_error_fails_RoundTrip (lib : Lib) (env : Env) (t : Transport)
    (rq : HttpRequest) (x : Request) (payload : bytes) (e : error) :
  Host rq = ""%string -> body_err (Body rq) = None ->
  blocking_Send env t rq = SendReturns None x ->
  Response x = Some payload ->
  snd (ReadMIMEHeader lib (ResponseHeaders x)) = Some e ->
  if decide (e = io_EOF)
  then exists resp,
         o_ret (RoundTrip lib env t rq) = Returns (Some resp) None
         /\ r_Header resp = fst (ReadMIMEHeader lib (ResponseHeaders x))
  else o_ret (RoundTrip lib env t rq) = Returns None (Some e).
Proof.
  intros Hh Hb Hs Hp He.
  rewrite (RoundTrip_sent lib env t rq None x Hh Hb Hs). cbn [o_ret].
  rewrite Hp. unfold build_response.
  destruct (ReadMIMEHeader lib (ResponseHeaders x)) as [headers herr].
  cbn in He. subst herr. cbn [fatal fst].
  destruct (decide (e = io_EOF)); [|reflexivity].
  destruct (version_of lib headers) as [[proto major] minor].
  eexists. split; reflexivity.
Qed.

Lemma header_error_fails_RoundTrip_witness :
  let bad := mkJsProps 200 "OK" (Some hello) "no colon here" in
  let env := ex_env [Props bad; Dispatch "load"; Goroutine 0] in
  if decide (ErrForeign "malformed MIME header line" = io_EOF)
  then exists resp,
         o_ret (RoundTrip GoStd.lib env ex_transport ex_request)
           = Returns (Some resp) None
         /\ r_Header resp
            = fst (ReadMIMEHeader GoStd.lib
                     (ResponseHeaders
                        (returned_handle
                           (blocking_Send env ex_transport ex_request))))
  else o_ret (RoundTrip GoStd.lib env ex_transport ex_request)
       = Returns None (Some (ErrForeign "malformed MIME header line")).
Proof.
  intros bad env.
  assert (H1 : Host ex_request = ""%string) by reflexivity.
  assert (H2 : body_err (Body ex_request) = None) by reflexivity.
  assert (H3 : blocking_Send env ex_transport ex_request
               = SendReturns None
                   (returned_handle (blocking_Send env ex_transport ex_request)))
    by (vm_compute; reflexivity).
  assert (H4 : Response (returned_handle
                           (blocking_Send env ex_transport ex_request))
               = Some hello) by (vm_compute; reflexivity).
  assert (H5 : snd (ReadMIMEHeader GoStd.lib
                      (ResponseHeaders
                         (returned_handle
                            (blocking_Send env ex_transport ex_request))))
               = Some (ErrForeign "malformed MIME header line"))
    by (vm_compute; reflexivity).
  exact (header_error_fails_RoundTrip GoStd.lib env ex_transport ex_request
           _ hello _ H1 H2 H3 H4 H5).
Defined.

(** ** The registry and [CancelRequest] *)

Lemma inflight_get_other (p q : ReqPtr) (x : option XhrPtr) (t : Transport) :
  q <> p -> inflight_get (setCanceler p x t) q = inflight_get t q.
Proof.
  intros Hne. unfold inflight_get, setCanceler.
  destruct x as [x|]; cbn;
    [rewrite lookup_insert_ne by congruence
    | rewrite lookup_delete_ne by congruence];
    destruct (inflight t); [reflexivity | apply lookup_empty
                           | reflexivity | apply lookup_empty].
Qed.

(** The transport a [RoundTrip] leaves behind. *)
Lemma RoundTrip_transport (lib : Lib) (env : Env) (t : Transport)
    (rq : HttpRequest) :
  o_transport (RoundTrip lib env t rq) = t
  \/ o_transport (RoundTrip lib env t rq) = registered env t rq
     /\ o_ret (RoundTrip lib env t rq) = Blocks
  \/ o_transport (RoundTrip lib env t rq)
     = setCanceler (addr rq) None (registered env t rq).
Proof.
  destruct (String.eqb_spec (Host rq) "") as [Hh|Hh].
  2:{ left. rewrite (Host_rejected_aux lib env t rq Hh). reflexivity. }
  destruct (body_err (Body rq)) as [e|] eqn:Hb.
  { left. unfold RoundTrip. rewrite Hh, Hb. reflexivity. }
  destruct (blocking_Send_no_panic env t rq) as [(val & x & Hs)|(x & Hs)].
  - right. right. rewrite (RoundTrip_sent lib env t rq val x Hh Hb Hs).
    reflexivity.
  - right. left. rewrite (RoundTrip_blocked lib env t rq x Hh Hb Hs).
    split; reflexivity.
Qed.

(** [RoundTrip] never changes what the registry holds for another
    request: neither while it is blocked in [Send] nor when it is done. *)
Theorem other_requests_untouched (lib : Lib) (env : Env) (t : Transport)
    (rq : HttpRequest) (q : ReqPtr) :
  q <> addr rq ->
  inflight_get (registered env t rq) q = inflight_get t q
  /\ inflight_get (o_transport (RoundTrip lib env t rq)) q = inflight_get t q.
Proof.
  intros Hne.
  assert (H1 : inflight_get (registered env t rq) q = inflight_get t q)
    by (apply inflight_get_other; exact Hne).
  split; [exact H1|].
  destruct (RoundTrip_transport lib env t rq) as [-> | [[-> _] | ->]];
    [reflexivity | exact H1|].
  rewrite inflight_get_other by exact Hne. exact H1.
Qed.

Lemma other_requests_untouched_witness :
  let t := setCanceler 9%positive (Some 4%positive) ex_transport in
  inflight_get
    (o_transport (RoundTrip GoStd.lib (ex_env ex_success) t ex_request))
    9%positive
  = Some 4%positive.
Proof.
  intros t.
  destruct (other_requests_untouched GoStd.lib (ex_env ex_success) t
              ex_request 9%positive) as [_ H].
  - discriminate.
  - rewrite H. reflexivity.
Defined.

Lemma RoundTrip_returned_lookup (lib : Lib) (env : Env) (t : Transport)
    (rq : HttpRequest) (resp : option HttpResponse) (err : option error) :
  inflight_get t (addr rq) = None ->
  o_ret (RoundTrip lib env t rq) = Returns resp err ->
  forall q, inflight_get (o_transport (RoundTrip lib env t rq)) q
            = inflight_get t q.
Proof.
  intros Hfree Hret q.
  destruct (RoundTrip_transport lib env t rq) as [-> | [[_ Hb] | ->]].
  - reflexivity.
  - rewrite Hb in Hret. discriminate.
  - destruct (decide (q = addr rq)) as [->|Hne].
    + rewrite inflight_get_removed, Hfree. reflexivity.
    + unfold registered. rewrite !inflight_get_other by exact Hne. reflexivity.
Qed.

(** A [RoundTrip] that has returned leaves the registry as it found it:
    with no entry for its request before, every lookup gives afterwards
    what it gave before, whether a response or an error was returned. *)
Theorem registry_restored (lib : Lib) (env : Env) (t : Transport)
    (rq : HttpRequest) (resp : option HttpResponse) (err : option error) :
  inflight_get t (addr rq) = None ->
  o_ret (RoundTrip lib env t rq) = Returns resp err ->
  forall q, inflight_get (o_transport (RoundTrip lib env t rq)) q
            = inflight_get t q.
Proof. apply RoundTrip_returned_lookup. Qed.

Lemma registry_restored_witness :
  let t := setCanceler 9%positive (Some 4%positive) ex_transport in
  inflight_get
    (o_transport (RoundTrip GoStd.lib (ex_env ex_cancel) t ex_request))
    9%positive
  = Some 4%positive
  /\ inflight_get
       (o_transport (RoundTrip GoStd.lib (ex_env ex_cancel) t ex_request))
       1%positive
     = None.
Proof.
  intros t.
  assert (H : forall q,
            inflight_get
              (o_transport (RoundTrip GoStd.lib (ex_env ex_cancel) t ex_request)) q
            = inflight_get t q).
  { apply (registry_restored GoStd.lib (ex_env ex_cancel) t ex_request
             None (Some ErrAborted)).
    - reflexivity.
    - vm_compute. reflexivity. }
  split; rewrite H; reflexivity.
Defined.

(** [CancelRequest] for a request whose [RoundTrip] has returned does
    nothing to any handle: the request is no longer in the registry. *)
Theorem Cancel_after_return_noop (lib : Lib) (env : Env) (t : Transport)
    (rq : HttpRequest) (resp : option HttpResponse) (err : option error)
    (xp : XhrPtr) (r : Request) :
  inflight_get t (addr rq) = None ->
  o_ret (RoundTrip lib env t rq) = Returns resp err ->
  CancelRequest (o_transport (RoundTrip lib env t rq)) (addr rq) xp r = r.
Proof.
  intros Hfree Hret. unfold CancelRequest.
  rewrite (RoundTrip_returned_lookup lib env t rq resp err Hfree Hret), Hfree.
  reflexivity.
Qed.

Lemma Cancel_after_return_noop_witness :
  let out := RoundTrip GoStd.lib (ex_env ex_timed_out) ex_transport ex_request in
  let x := returned_handle
             (blocking_Send (ex_env ex_timed_out) ex_transport ex_request) in
  o_ret out = Returns None (Some ErrTimeout)
  /\ CancelRequest (o_transport out) 1%positive 5%positive x = x.
Proof.
  intros out x.
  assert (Hret : o_ret out = Returns None (Some ErrTimeout))
    by (vm_compute; reflexivity).
  split; [exact Hret|].
  apply (Cancel_after_return_noop GoStd.lib (ex_env ex_timed_out) ex_transport
           ex_request None (Some ErrTimeout) 5%positive x).
  - reflexivity.
  - exact Hret.
Defined.

(** A [CancelRequest] that comes after the registration but before
    [Send] has made the channel is lost: [Abort] finds a nil channel, the
    handle stays as it was, and the [Send] that follows runs as if nobody
    had cancelled. *)
Theorem Cancel_before_dispatch_lost (env : Env) (t : Transport)
    (rq : HttpRequest) :
  CancelRequest (registered env t rq) (addr rq) (new_xhr env) (prepare env rq)
  = prepare env rq
  /\ forall data sched,
       Send data sched
         (CancelRequest (registered env t rq) (addr rq) (new_xhr env)
            (prepare env rq))
       = Send data sched (prepare env rq).
Proof.
  assert (H : CancelRequest (registered env t rq) (addr rq) (new_xhr env)
                (prepare env rq) = prepare env rq).
  { unfold CancelRequest, registered. rewrite inflight_get_registered.
    destruct (decide (new_xhr env = new_xhr env)); [|reflexivity].
    apply Abort_nil. apply prepare_unsent. }
  split; [exact H|]. intros data sched. rewrite H. reflexivity.
Qed.



(** A [CancelRequest] for another request, one that the registry does not
    lead to this handle, changes nothing in the [RoundTrip]. *)
Theorem Cancel_of_other_request_ignored (lib : Lib) (xp : XhrPtr)
    (range : list (string * list string)) (pre post : list TAction)
    (t : Transport) (rq : HttpRequest) (q : ReqPtr) :
  q <> addr rq -> inflight_get t q <> Some xp ->
  RoundTrip lib (mkEnv xp range (pre ++ Cancel q :: post)) t rq
  = RoundTrip lib (mkEnv xp range (pre ++ post)) t rq.
Proof.
  intros Hne Hq.
  assert (Hres : forall t1,
            inflight_get t1 q = inflight_get t q ->
            resolve t1 xp (pre ++ Cancel q :: post) = resolve t1 xp (pre ++ post)).
  { intros t1 Ht1. unfold resolve. rewrite !flat_map_app. f_equal.
    cbn [flat_map]. rewrite Ht1.
    destruct (inflight_get t q) as [x|]; [|reflexivity].
    destruct (decide (x = xp)); [congruence | reflexivity]. }
  unfold RoundTrip, blocking_Send, prepare, registered. cbn [new_xhr range_Header during_Send].
  rewrite Hres; [reflexivity|].
  apply inflight_get_other. exact Hne.
Qed.

Lemma Cancel_of_other_request_ignored_witness :
  RoundTrip GoStd.lib
    (mkEnv 5%positive [] ([Props ex_loaded] ++ Cancel 9%positive
                            :: [Dispatch "load"; Goroutine 0]))
    (setCanceler 9%positive (Some 4%positive) ex_transport) ex_request
  = RoundTrip GoStd.lib
      (mkEnv 5%positive [] ([Props ex_loaded] ++ [Dispatch "load"; Goroutine 0]))
      (setCanceler 9%positive (Some 4%positive) ex_transport) ex_request.
Proof.
  apply (Cancel_of_other_request_ignored GoStd.lib 5%positive []
           [Props ex_loaded] [Dispatch "load"; Goroutine 0]
           (setCanceler 9%positive (Some 4%positive) ex_transport)
           ex_request 9%positive).
  - discriminate.
  - vm_compute. discriminate.
Defined.

(** * The registry around [Send], and the first delivery *)

(** C3. A [RoundTrip] that gets to [Send] has put its handle into
    [inflight] under the request before: [Send] runs with the entry in
    place, and a [CancelRequest] for the request is an [Abort] of that
    handle.  Whatever value [Send] returns, the next thing is the removal
    of the entry, and [RoundTrip] returns with no entry for the request;
    while [Send] is blocked the entry stays.  A [RoundTrip] that returns
    at the [Host] check or at the body never touches the registry.  So
    with no entry for the request before, there is none after any
    return. *)
Theorem registry_discipline (lib : Lib) (env : Env) (t : Transport)
    (rq : HttpRequest) :
  let out := RoundTrip lib env t rq in
  let p := addr rq in
  let xp := new_xhr env in
  (Host rq = ""%string -> body_err (Body rq) = None ->
     inflight_get (registered env t rq) p = Some xp
     /\ resolve (registered env t rq) xp [Cancel p] = [CallAbort]
     /\ ((exists val x, blocking_Send env t rq = SendReturns val x)
         \/ (exists x, blocking_Send env t rq = SendBlocked x))
     /\ (forall val x, blocking_Send env t rq = SendReturns val x ->
           registry_trace out
             = [EfSetCanceler p (Some xp); EfSend (body_data (Body rq));
                EfSetCanceler p None]
           /\ o_transport out = setCanceler p None (registered env t rq)
           /\ inflight_get (o_transport out) p = None
           /\ exists resp err, o_ret out = Returns resp err)
     /\ (forall x, blocking_Send env t rq = SendBlocked x ->
           registry_trace out
             = [EfSetCanceler p (Some xp); EfSend (body_data (Body rq))]
           /\ o_transport out = registered env t rq
           /\ inflight_get (o_transport out) p = Some xp
           /\ o_ret out = Blocks))
  /\ (Host rq <> ""%string \/ body_err (Body rq) <> None ->
        registry_trace out = []
        /\ o_transport out = t
        /\ exists err, o_ret out = Returns None (Some err))
  /\ (inflight_get t p = None ->
      forall resp err, o_ret out = Returns resp err ->
                       inflight_get (o_transport out) p = None).
Proof.
  cbn zeta. split; [|split].
  - intros Hh Hb.
    split; [apply inflight_get_registered|]. split.
    { unfold resolve. cbn [flat_map]. unfold registered.
      rewrite inflight_get_registered.
      destruct (decide (new_xhr env = new_xhr env)); [reflexivity | congruence]. }
    split; [apply blocking_Send_no_panic|]. split.
    + intros val x Hs. rewrite (RoundTrip_sent lib env t rq val x Hh Hb Hs).
      cbn [o_transport o_ret].
      split; [unfold registry_trace; cbn; destruct (Body rq); reflexivity|].
      split; [reflexivity|]. split; [apply inflight_get_removed|].
      destruct val as [e|]; [eauto|].
      destruct (Response x) as [payload|]; [|eauto].
      apply build_response_returns.
    + intros x Hs. rewrite (RoundTrip_blocked lib env t rq x Hh Hb Hs).
      cbn [o_transport o_ret].
      split; [unfold registry_trace; cbn; destruct (Body rq); reflexivity|].
      split; [reflexivity|]. split; [apply inflight_get_registered | reflexivity].
  - intros Hearly.
    destruct (String.eqb_spec (Host rq) "") as [Hh|Hh].
    + destruct Hearly as [Hne|Hne]; [contradiction|].
      destruct (body_err (Body rq)) as [e|] eqn:Hb; [|congruence].
      unfold RoundTrip. rewrite Hh, Hb. cbn [String.eqb negb].
      unfold registry_trace. cbn. destruct (Body rq); cbn; eauto.
    + rewrite (Host_rejected_aux lib env t rq Hh). cbn. eauto.
  - intros Hfree resp err Hret.
    rewrite (RoundTrip_returned_lookup lib env t rq resp err Hfree Hret).
    exact Hfree.
Qed.

Lemma registry_discipline_witness :
  let out := RoundTrip GoStd.lib (ex_env ex_timed_out) ex_transport ex_request in
  inflight_get (registered (ex_env ex_timed_out) ex_transport ex_request)
    1%positive = Some 5%positive
  /\ registry_trace out
     = [EfSetCanceler 1%positive (Some 5%positive); EfSend None;
        EfSetCanceler 1%positive None]
  /\ inflight_get (o_transport out) 1%positive = None
  /\ o_ret out = Returns None (Some ErrTimeout).
Proof.
  intros out.
  destruct (registry_discipline GoStd.lib (ex_env ex_timed_out) ex_transport
              ex_request) as (HA & _ & HC).
  destruct (HA eq_refl eq_refl) as (Hreg & _ & _ & Hret & _).
  assert (Hs : blocking_Send (ex_env ex_timed_out) ex_transport ex_request
               = SendReturns (Some ErrTimeout)
                   (returned_handle
                      (blocking_Send (ex_env ex_timed_out) ex_transport
                         ex_request)))
    by (vm_compute; reflexivity).
  destruct (Hret _ _ Hs) as (Htrace & _ & _ & _).
  assert (Ho : o_ret out = Returns None (Some ErrTimeout))
    by (vm_compute; reflexivity).
  split; [exact Hreg|]. split; [exact Htrace|].
  split; [exact (HC eq_refl _ _ Ho) | exact Ho].
Defined.

Lemma natural_more (done more : list Action) (val : option error) :
  natural done val -> natural (done ++ more) val.
Proof.
  intros (typ & Hin & Hl). exists typ. split; [|exact Hl].
  apply in_or_app. left. exact Hin.
Qed.

(** The goroutines that wait to send all come from events that [Send]
    listens to: an [Abort] never starts one. *)
Lemma step_spawned_natural (done : list Action) (a : Action) (w w' : World) :
  listeners (req w) = Send_listeners ->
  Forall (natural done) (spawned w) ->
  is_CallSend a = false -> step a w = Ok w' ->
  listeners (req w') = Send_listeners
  /\ Forall (natural (done ++ [a])) (spawned w').
Proof.
  intros Hl Hsp Ha Hs.
  assert (Hsp' : Forall (natural (done ++ [a])) (spawned w)).
  { eapply Forall_impl; [exact Hsp|]. intros val. apply natural_more. }
  destruct a; try discriminate; cbn in Hs.
  - destruct (caller w), (ch (req w)) as [[|v buf]|];
      inversion Hs; subst; cbn; auto.
  - inversion Hs; subst; cbn. split; [exact Hl|].
    apply Forall_app. split; [exact Hsp'|].
    apply Forall_forall. intros val Hin.
    apply list_elem_of_In, (fired_Send_listeners typ (req w) val Hl) in Hin.
    exists typ. split; [|exact Hin]. apply in_or_app. right. left. reflexivity.
  - destruct (spawned w !! i) as [v|], (ch (req w)) as [buf|];
      try (inversion Hs; subst; auto).
    destruct (try_send v buf); inversion Hs; subst; cbn; auto.
    split; [exact Hl|]. apply Forall_delete. exact Hsp'.
  - inversion Hs; subst; cbn. split; [|exact Hsp'].
    unfold Abort. destruct (ch (req w)) as [buf|]; [|exact Hl].
    destruct (try_send _ buf); exact Hl.
  - inversion Hs; subst; cbn. auto.
Qed.

Lemma run_spawned_natural (acts done : list Action) (w w' : World) :
  listeners (req w) = Send_listeners ->
  Forall (natural done) (spawned w) ->
  no_Send acts = true -> run acts w = Ok w' ->
  Forall (natural (done ++ acts)) (spawned w').
Proof.
  revert done w. induction acts as [|a acts IH]; intros done w Hl Hsp Hn Hr;
    cbn in Hr.
  - inversion Hr; subst. rewrite app_nil_r. exact Hsp.
  - cbn in Hn. apply andb_true_iff in Hn as [Ha Hn].
    apply negb_true_iff in Ha.
    destruct (step a w) as [w1|] eqn:Es; [|discriminate].
    destruct (step_spawned_natural done a w w1 Hl Hsp Ha Es) as [Hl1 Hsp1].
    pose proof (IH (done ++ [a]) w1 Hl1 Hsp1 Hn Hr) as H.
    rewrite <- app_assoc in H. exact H.
Qed.

(** C6, as far as the code goes. The value that is delivered first
    decides [Send]: when the goroutine of a listener puts its value into
    the still empty channel while the caller waits, [Send] returns that
    value, whatever the object shows as status and whatever happens
    afterwards, and the [Status] of the handle is the status of the
    object.  Such a value is nil after [load], [ErrFailure] after [error]
    and [ErrTimeout] after [timeout], and the two errors differ: a status
    code never turns [load] into an error. *)
Theorem first_delivery_decides_Send (data : option bytes)
    (pre post : list Action) (i : nat) (r : Request) (w : World)
    (val : option error) :
  unsent r -> no_Send pre = true -> no_Send post = true ->
  run (CallSend data :: pre) (new_world r) = Ok w ->
  caller w = Waiting -> ch (req w) = Some [] ->
  spawned w !! i = Some val ->
  (exists r', Send data (pre ++ Run i :: post) r = SendReturns val r')
  /\ (exists r', Send data (pre ++ [Run i]) r = SendReturns val r'
                 /\ Status r' = Status (req w))
  /\ ((val = None /\ In (Fire "load") pre)
      \/ (val = Some ErrFailure /\ In (Fire "error") pre)
      \/ (val = Some ErrTimeout /\ In (Fire "timeout") pre))
  /\ ErrTimeout <> ErrFailure.
Proof.
  intros Hu Hpre Hpost Hrun Hc Hch Hi.
  set (w1 := mkWorld (set_ch (Some [val]) (req w)) (delete i (spawned w))
               (caller w)).
  assert (Hst : step (Run i) w = Ok w1).
  { cbn. rewrite Hi, Hch. reflexivity. }
  assert (Hs1 : settled val w1) by (left; split; [exact Hc | reflexivity]).
  assert (Hgo : forall post', no_Send post' = true ->
            exists w3, run (CallSend data :: (pre ++ Run i :: post') ++ [Wake])
                           (new_world r) = Ok w3
                       /\ caller w3 = Returned val
                       /\ (post' = [] -> props (req w3) = props (req w))).
  { intros post' Hp'.
    destruct (run_settled val post' w1 Hs1 Hp') as (w2 & Hr2 & Hs2).
    destruct (Wake_settled val w2 Hs2) as (w3 & Hst3 & Hc3).
    exists w3. split; [|split; [exact Hc3|]].
    - change (CallSend data :: (pre ++ Run i :: post') ++ [Wake])
        with ((CallSend data :: pre ++ Run i :: post') ++ [Wake]).
      change (CallSend data :: pre ++ Run i :: post')
        with ((CallSend data :: pre) ++ Run i :: post').
      rewrite <- app_assoc, run_app, Hrun. cbn [app run]. rewrite Hst.
      rewrite run_app, Hr2. cbn [run]. rewrite Hst3. reflexivity.
    - intros ->. cbn in Hr2. inversion Hr2; subst w2.
      cbn in Hst3. rewrite Hc in Hst3. inversion Hst3; subst w3. reflexivity. }
  split; [|split; [|split; [|discriminate]]].
  - destruct (Hgo post Hpost) as (w3 & Hr3 & Hc3 & _).
    exists (req w3). unfold Send. rewrite Hr3, Hc3. reflexivity.
  - destruct (Hgo [] eq_refl) as (w3 & Hr3 & Hc3 & Hp3).
    exists (req w3). split.
    + unfold Send. rewrite Hr3, Hc3. reflexivity.
    + unfold Status. rewrite (Hp3 eq_refl). reflexivity.
  - cbn [run step new_world req spawned] in Hrun.
    destruct (Send_dispatch_unsent data r (proj1 Hu)) as (r0 & Hd & _ & Hl & _).
    rewrite Hd in Hrun. rewrite (proj2 Hu) in Hl. cbn in Hl.
    assert (Hnat : Forall (natural ([] ++ pre)) (spawned w)).
    { eapply (run_spawned_natural pre [] (mkWorld r0 [] Waiting) w);
        [exact Hl | constructor | exact Hpre | exact Hrun]. }
    cbn in Hnat.
    destruct (Forall_lookup_1 _ _ _ _ Hnat Hi) as (typ & Hin & Hlis).
    cbn in Hlis. destruct Hlis as [H|[H|[H|[]]]]; inversion H; subst; auto.
Qed.

Lemma first_delivery_decides_Send_witness :
  let p := mkJsProps 503 "Service Unavailable" (Some []) "" in
  let r := NewRequest "GET" "/endpoint" in
  (exists r', Send None ([Browser p; Fire "load"] ++ Run 0 :: [CallAbort]) r
              = SendReturns None r')
  /\ (exists r', Send None ([Browser p; Fire "load"] ++ [Run 0]) r
                 = SendReturns None r'
                 /\ Status r' = 503%Z).
Proof.
  intros p r.
  destruct (first_delivery_decides_Send None [Browser p; Fire "load"]
              [CallAbort] 0 r
              (mkWorld
                 (set_props p
                    (returned_handle (Send None [] r)))
                 [None] Waiting)
              None) as (H1 & H2 & _).
  - split; reflexivity.
  - reflexivity.
  - reflexivity.
  - vm_compute. reflexivity.
  - reflexivity.
  - reflexivity.
  - reflexivity.
  - split; [exact H1 | exact H2].
Defined.

(** C6 does not hold for every [Send] in which [load] is dispatched: an
    [Abort] that comes after the event and before the goroutine of its
    listener has sent makes [Send] return [ErrAborted]. *)
Lemma load_then_Abort_not_success :
  ~ (forall (sched : list Action) (val : option error) (r' : Request),
       no_Send sched = true -> In (Fire "load") sched ->
       Send None sched (NewRequest "GET" "/endpoint") = SendReturns val r' ->
       val = None).
Proof.
  intros H.
  assert (Hs : Send None [Fire "load"; CallAbort; Run 0]
                 (NewRequest "GET" "/endpoint")
               = SendReturns (Some ErrAborted)
                   (returned_handle
                      (Send None [Fire "load"; CallAbort; Run 0]
                         (NewRequest "GET" "/endpoint"))))
    by (vm_compute; reflexivity).
  pose proof (H [Fire "load"; CallAbort; Run 0] _ _ eq_refl
                (or_introl eq_refl) Hs) as Hval.
  discriminate.
Qed.
